(** * bugzilla2gitlab: the record reconciliation core of [models.py]

    A shallow embedding of [src/bugzilla2gitlab/models.py] and the
    properties of its specification.

    Conventions of the embedding.
    - A Python [str] is a [string]; every [ascii] stands for one code
      point below 256.  Python 3 semantics of [re] on [str] patterns is
      used throughout ([\s] is Unicode-aware, [.] excludes only the line
      feed).
    - A Python [int] is a [Z].
    - A [dict] whose iteration order is observable (the attachment
      registry, joined into the description in insertion order) is an
      insertion-ordered association list with overwrite in place.
    - The code raises exceptions and talks to the network through
      [_perform_request]; both are threaded explicitly by the monad [M]
      over the log of requests issued so far.
    - The record is taken in the shape of section 6 of the
      specification: every comment has an author, a time and a text,
      every attachment a numeric id, a filename and a flag.  [int] on a
      run of digits is taken without the interpreter's limit on the
      length of the run. *)

From Stdlib Require Import String Ascii List ZArith Lia Bool Arith DecimalString DecimalZ.
Import ListNotations.

Local Open Scope string_scope.
Local Open Scope list_scope.

(** String concatenation gets a notation of its own, so that [++] stays
    the list append. *)
Infix "+++" := String.append (at level 60, right associativity).

(* ===================================================================== *)
(** ** Python strings *)
(* ===================================================================== *)

Module PyStr.

Definition LF : ascii := "010"%char.
Definition nl : string := String LF EmptyString.

(** [c in s] for a one-character string [c]. *)
Fixpoint char_in (c : ascii) (s : string) : bool :=
  match s with
  | EmptyString => false
  | String d s' => Ascii.eqb c d || char_in c s'
  end.

(** [s.count(c)] for a one-character string [c]. *)
Fixpoint count (c : ascii) (s : string) : nat :=
  match s with
  | EmptyString => 0
  | String d s' => (if Ascii.eqb c d then 1 else 0) + count c s'
  end.

(** [s.startswith(p)] returning the remainder. *)
Fixpoint strip_prefix (p s : string) : option string :=
  match p, s with
  | EmptyString, _ => Some s
  | String a p', String b s' => if Ascii.eqb a b then strip_prefix p' s' else None
  | String _ _, EmptyString => None
  end.

Definition startswith (p s : string) : bool :=
  match strip_prefix p s with Some _ => true | None => false end.

(** [sub in s], substring containment. *)
Fixpoint contains (sub s : string) : bool :=
  startswith sub s ||
  match s with
  | EmptyString => false
  | String _ s' => contains sub s'
  end.

(** [sep.join(l)]. *)
Fixpoint join (sep : string) (l : list string) : string :=
  match l with
  | [] => EmptyString
  | [x] => x
  | x :: rest => x +++ sep +++ join sep rest
  end.

(** [str(n)] for an [int]. *)
Definition str_of_int (n : Z) : string := NilZero.string_of_int (Z.to_int n).

Definition is_digit (c : ascii) : bool :=
  let n := nat_of_ascii c in ((48 <=? n) && (n <=? 57))%nat.

(** [int(s)] on a non-empty run of ASCII digits, as matched by [\d+]. *)
Fixpoint int_of_digits_from (acc : Z) (s : string) : Z :=
  match s with
  | EmptyString => acc
  | String c s' =>
      int_of_digits_from (10 * acc + Z.of_nat (nat_of_ascii c - 48))%Z s'
  end.

Definition int_of_digits (s : string) : Z := int_of_digits_from 0%Z s.

(** [s.rpartition(sep)]: split at the last occurrence of [sep]; when
    there is none the result is [("", "", s)]. *)
Fixpoint rpartition_found (sep s : string) : option (string * string) :=
  match s with
  | EmptyString =>
      match strip_prefix sep s with
      | Some rest => Some (EmptyString, rest)
      | None => None
      end
  | String c s' =>
      match rpartition_found sep s' with
      | Some (before, after) => Some (String c before, after)
      | None =>
          match strip_prefix sep s with
          | Some rest => Some (EmptyString, rest)
          | None => None
          end
      end
  end.

Definition rpartition (sep s : string) : string * string * string :=
  match rpartition_found sep s with
  | Some (before, after) => (before, sep, after)
  | None => (EmptyString, EmptyString, s)
  end.

(** The first [n] characters of [s]. *)
Fixpoint take (n : nat) (s : string) : string :=
  match n, s with
  | S n', String c s' => String c (take n' s')
  | _, _ => EmptyString
  end.

(** Truthiness of a [str]. *)
Definition nonempty (s : string) : bool :=
  match s with EmptyString => false | String _ _ => true end.

End PyStr.
Import PyStr.

(* ===================================================================== *)
(** ** The fragment of [re] used by the module *)
(* ===================================================================== *)

(** A backtracking matcher for the greedy operators the module's four
    patterns are built from.  Matching is relative to the current
    position; the patterns anchored with [^] are only ever passed to
    [re.match], which starts at offset 0 where [^] holds, so [^] needs no
    constructor. *)
Module Re.

Inductive regex : Type :=
| Lit (s : string)                 (* literal text *)
| Cls (p : ascii -> bool)          (* one character of a class *)
| Star (p : ascii -> bool)         (* class*, greedy *)
| Plus (p : ascii -> bool)         (* class+, greedy *)
| Opt (r : regex)                  (* r?, greedy *)
| Seq (r1 r2 : regex)
| Grp (r : regex)                  (* the capturing group 1 *)
| Eol.                             (* $ under re.M *)

(** Character classes. *)
Definition dot (c : ascii) : bool := negb (Ascii.eqb c LF).
Definition newline (c : ascii) : bool := Ascii.eqb c LF.
Definition digit (c : ascii) : bool := is_digit c.
Definition space (c : ascii) : bool :=
  let n := nat_of_ascii c in
  (((9 <=? n) && (n <=? 13)) || ((28 <=? n) && (n <=? 32))
   || (n =? 133) || (n =? 160))%nat.
Definition nonspace (c : ascii) : bool := negb (space c).

Section Matcher.
Context {A : Type}.

(** Greedy repetition of a class: take the longest run first and
    give characters back one at a time while the continuation
    fails. *)
Fixpoint star_k (p : ascii -> bool) (s : string)
         (k : string -> option A) : option A :=
  match s with
  | String c s' =>
      if p c then
        match star_k p s' k with
        | Some r => Some r
        | None => k s
        end
      else k s
  | EmptyString => k s
  end.

(** [run r s g k]: match [r] at the head of [s] with group 1
    currently [g], then continue with [k] on what is left. *)
Fixpoint run (r : regex) (s : string) (g : option string)
         (k : string -> option string -> option A) : option A :=
  match r with
  | Lit l =>
      match strip_prefix l s with
      | Some s' => k s' g
      | None => None
      end
  | Cls p =>
      match s with
      | String c s' => if p c then k s' g else None
      | EmptyString => None
      end
  | Star p => star_k p s (fun s' => k s' g)
  | Plus p =>
      match s with
      | String c s' => if p c then star_k p s' (fun s'' => k s'' g) else None
      | EmptyString => None
      end
  | Opt r1 =>
      match run r1 s g k with
      | Some x => Some x
      | None => k s g
      end
  | Seq r1 r2 => run r1 s g (fun s' g' => run r2 s' g' k)
  | Grp r1 =>
      run r1 s g
          (fun s' _ => k s' (Some (take (String.length s - String.length s') s)))
  | Eol =>
      match s with
      | EmptyString => k s g
      | String c _ => if Ascii.eqb c LF then k s g else None
      end
  end.
End Matcher.

(** [re.match(r, s)]: the text left after the match and group 1. *)
Definition re_match (r : regex) (s : string) : option (string * option string) :=
  run r s None (fun rest g => Some (rest, g)).

(** The match of [r] at the head of [s], optionally required to be
    non-empty. *)
Definition match_at (nonempty_only : bool) (r : regex) (s : string) : option string :=
  run r s None
      (fun rest _ =>
         if nonempty_only && (String.length rest =? String.length s)%nat
         then None else Some rest).

(** [re.sub(r, "", s, count=1)]: delete the leftmost match. *)
Fixpoint re_sub1 (r : regex) (s : string) : string :=
  match match_at false r s with
  | Some rest => rest
  | None =>
      match s with
      | String c s' => String c (re_sub1 r s')
      | EmptyString => EmptyString
      end
  end.

(** [re.split(r, s)].  [empty_splits] is the behaviour of the
    interpreter: from Python 3.7 on an empty match splits the string
    too (unless it is adjacent to the previous empty match); before
    3.7 empty matches are ignored.  [skip] counts the characters of
    the current match still to be consumed and [acc] is the piece
    collected since the last match. *)
Fixpoint split_go (empty_splits : bool) (r : regex) (skip : nat)
         (acc s : string) : list string :=
  match skip with
  | S n =>
      match s with
      | String _ s' => split_go empty_splits r n acc s'
      | EmptyString => [acc]
      end
  | O =>
      match match_at (negb empty_splits) r s with
      | Some rest =>
          match (String.length s - String.length rest)%nat, s with
          | S n, String _ s' => acc :: split_go empty_splits r n EmptyString s'
          | S _, EmptyString => [acc]
          | O, EmptyString => [acc; EmptyString]
          | O, String c s' =>
              (* an empty match here; the search resumes at the same
                 offset and must now consume something *)
              acc ::
              match match_at true r s with
              | Some rest2 =>
                  EmptyString ::
                  split_go empty_splits r
                           (String.length s - String.length rest2 - 1)
                           EmptyString s'
              | None => split_go empty_splits r 0 (String c EmptyString) s'
              end
          end
      | None =>
          match s with
          | String c s' => split_go empty_splits r 0 (acc +++ String c EmptyString) s'
          | EmptyString => [acc]
          end
      end
  end.

Definition re_split (empty_splits : bool) (r : regex) (s : string) : list string :=
  split_go empty_splits r 0 EmptyString s.

End Re.
Import Re.

(* ===================================================================== *)
(** ** The text sanitizer *)
(* ===================================================================== *)

(** [needs_quoting(txt)], lines 345-358. *)
Definition needs_quoting (txt : string) : string :=
  if char_in "#" txt ||
     char_in ">" txt ||
     char_in "_" txt ||
     char_in "-" txt ||
     (1 <? count "=" txt)%nat ||
     char_in "~" txt ||
     char_in "|" txt ||
     char_in "*" txt ||
     char_in "+" txt ||
     char_in "@" txt
  then "<pre>" +++ txt +++ "</pre>"
  else txt.

(* ===================================================================== *)
(** ** Values, dictionaries, exceptions and effects *)
(* ===================================================================== *)

(** The Python values that flow through payloads and through the result
    of [parse_comment_text] ([False] or an [int]). *)
Inductive pyval : Type :=
| VNone
| VBool (b : bool)
| VInt (n : Z)
| VStr (s : string).

(** Truthiness, as tested by [if v:]. *)
Definition truthy (v : pyval) : bool :=
  match v with
  | VNone => false
  | VBool b => b
  | VInt n => negb (n =? 0)%Z
  | VStr s => nonempty s
  end.

(** Truthiness of [d.get(key)] for a string-valued key: absent and empty
    are both false. *)
Definition truthy_str (o : option string) : bool :=
  match o with Some s => nonempty s | None => false end.

(** Insertion-ordered dictionaries. *)
Section Dict.
Context {K V : Type} (eqb : K -> K -> bool).

Fixpoint dict_get (k : K) (d : list (K * V)) : option V :=
  match d with
  | [] => None
  | (k', v) :: d' => if eqb k k' then Some v else dict_get k d'
  end.

(** [d[k] = v]: an existing key keeps its position. *)
Fixpoint dict_set (k : K) (v : V) (d : list (K * V)) : list (K * V) :=
  match d with
  | [] => [(k, v)]
  | (k', v') :: d' =>
      if eqb k k' then (k', v) :: d' else (k', v') :: dict_set k v d'
  end.

Definition dict_mem (k : K) (d : list (K * V)) : bool :=
  match dict_get k d with Some _ => true | None => false end.

Definition dict_keys (d : list (K * V)) : list K := map fst d.
Definition dict_values (d : list (K * V)) : list V := map snd d.
End Dict.

(** [x in l] for a list of integers. *)
Definition int_in (n : Z) (l : list Z) : bool := existsb (Z.eqb n) l.

Inductive exn : Type :=
| Exception (msg : string)        (* raise Exception(msg) *)
| KeyError (key : string)         (* d[key] on a missing key *)
| IndexError                      (* l[0] on an empty list *)
| AttributeError (name : string)  (* getattr on an unset attribute *)
| DateError (text : string)       (* raised inside the date parser *)
| BackendError (url : string).    (* raised inside the Backend Client *)

Inductive result (A : Type) : Type :=
| OK (a : A)
| Raise (e : exn).
Arguments OK {A} a.
Arguments Raise {A} e.

(** One call of [_perform_request], with the keyword arguments as the
    caller wrote them: [None] stands for an argument that is not
    passed. *)
Record request : Type := {
  req_url : string;
  req_method : string;
  req_headers : list (string * pyval);
  req_data : list (string * pyval);
  req_files : option (string * string);
  req_json : option bool;
  req_dry_run : option bool
}.

(** What a request gives back: the raw [content] and the JSON keys the
    module reads. *)
Record response : Type := {
  content : string;
  json_markdown : option string;
  json_iid : option Z;
  json_id : option Z
}.

(** Computations that may raise and that issue requests: the state is
    the log of all calls of [_perform_request] so far, kept also when an
    exception aborts the computation. *)
Definition M (A : Type) : Type := list request -> result A * list request.

Definition ret {A} (a : A) : M A := fun log => (OK a, log).
Definition raise {A} (e : exn) : M A := fun log => (Raise e, log).
Definition bind {A B} (c : M A) (f : A -> M B) : M B :=
  fun log =>
    match c log with
    | (OK a, log') => f a log'
    | (Raise e, log') => (Raise e, log')
    end.

Declare Scope py_scope.
Delimit Scope py_scope with py.
Notation "x <- c ;; k" := (bind c (fun x => k))
  (at level 61, c at next level, right associativity) : py_scope.
Notation "c ;;; k" := (bind c (fun _ => k))
  (at level 61, right associativity) : py_scope.
Local Open Scope py_scope.

(** [d[key]], raising [KeyError]. *)
Definition lookup {A} (o : option A) (key : string) : M A :=
  match o with Some a => ret a | None => raise (KeyError key) end.

(** [obj.name], raising [AttributeError] while the attribute is unset. *)
Definition getattr {A} (o : option A) (name : string) : M A :=
  match o with Some a => ret a | None => raise (AttributeError name) end.

(** A pure step that may raise. *)
Definition lift {A} (r : result A) : M A := fun log => (r, log).

(* ===================================================================== *)
(** ** Configuration and collaborators *)
(* ===================================================================== *)

(** The attributes of the global [conf] that the module reads. *)
Record Config : Type := {
  default_headers : list (string * pyval);
  bugzilla_users : list (string * string);
  gitlab_users : list (string * Z);
  gitlab_user_admins : list (Z * bool);
  default_gitlab_labels : list string;
  component_mappings : list (string * string);
  include_bugzilla_link : bool;
  bugzilla_base_url : string;
  gitlab_base_url : string;
  gitlab_project_id : string;
  datetime_format_string : string;
  bugzilla_auto_reporter : string;
  gitlab_misc_user : string;
  dry_run : bool
}.

(** Everything a run depends on besides its input: the configuration,
    the helpers imported from [utils] and [dateutil] (not part of
    [models.py]), the remote services, and the interpreter's [re.split]
    behaviour. *)
Record Env : Type := {
  conf : Config;
  (* utils.markdown_table_row(key, value); the value may be None *)
  markdown_table_row : string -> option string -> string;
  (* utils.format_datetime(text, format); None when it raises *)
  format_datetime : string -> string -> option string;
  (* dateutil.parser.parse(text).isoformat(); None when it raises *)
  dateparser_isoformat : string -> option string;
  (* the remote end: the answer to a live request given the log so far;
     None when the request fails *)
  backend : list request -> request -> option response;
  (* what a dry-run call returns *)
  dry_run_response : response;
  (* Python >= 3.7: re.split also splits on empty matches *)
  split_on_empty : bool
}.

Module Utils.
Section WithEnv.
Variable E : Env.

(** Whether a call of [_perform_request] goes to the network. *)
Definition network_io (req : request) : bool :=
  match req_dry_run req with Some true => false | _ => true end.

(** Modelled from the spec: [utils._perform_request], the Backend
    Client of section 6, is not part of [models.py].  Every call is
    logged.  Under [dry_run=True] it performs no network I/O and
    returns a fixed synthetic result; otherwise (the flag is false or
    not passed) the request goes to the remote end, and a failed
    request raises. *)
Definition _perform_request (req : request) : M response :=
  fun log =>
    if network_io req then
      match backend E log req with
      | Some resp => (OK resp, log ++ [req])
      | None => (Raise (BackendError (req_url req)), log ++ [req])
      end
    else (OK (dry_run_response E), log ++ [req]).

Definition markdown_row (key : string) (value : option string) : string :=
  markdown_table_row E key value.

Definition format_dt (text : string) : M string :=
  match format_datetime E text (datetime_format_string (conf E)) with
  | Some s => ret s
  | None => raise (DateError text)
  end.

Definition parse_isoformat (text : string) : M string :=
  match dateparser_isoformat E text with
  | Some s => ret s
  | None => raise (DateError text)
  end.
End WithEnv.
End Utils.
Import Utils.

(* ===================================================================== *)
(** ** The input record *)
(* ===================================================================== *)

(** One entry of [fields["attachment"]]; [attachid] is the value of
    [int(attachment["attachid"])]. *)
Record attachment_fields : Type := {
  attachid : Z;
  filename : string;
  isobsolete : bool
}.

(** One entry of [fields["long_desc"]].  [c_attachid] is the optional
    attachment tag. *)
Record comment_fields : Type := {
  who : string;
  bug_when : string;
  thetext : string;
  c_attachid : option Z
}.

(** The bug record, [bugzilla_fields].  Keys read with [.get] are
    optional. *)
Record Fields : Type := {
  bug_id : string;
  creation_ts : string;
  delta_ts : string;
  short_desc : string;
  reporter : string;
  assigned_to : string;
  bug_status : string;
  component : string;
  op_sys : option string;
  resolution : option string;
  version : option string;
  rep_platform : option string;
  long_desc : list comment_fields;
  attachment : list attachment_fields
}.

Definition set_long_desc (l : list comment_fields) (f : Fields) : Fields :=
  {| bug_id := bug_id f; creation_ts := creation_ts f; delta_ts := delta_ts f;
     short_desc := short_desc f; reporter := reporter f;
     assigned_to := assigned_to f; bug_status := bug_status f;
     component := component f; op_sys := op_sys f;
     resolution := resolution f; version := version f;
     rep_platform := rep_platform f; long_desc := l;
     attachment := attachment f |}.

Definition set_attachment (l : list attachment_fields) (f : Fields) : Fields :=
  {| bug_id := bug_id f; creation_ts := creation_ts f; delta_ts := delta_ts f;
     short_desc := short_desc f; reporter := reporter f;
     assigned_to := assigned_to f; bug_status := bug_status f;
     component := component f; op_sys := op_sys f;
     resolution := resolution f; version := version f;
     rep_platform := rep_platform f; long_desc := long_desc f;
     attachment := l |}.

(** [validate_user], lines 332-335. *)
Definition validate_user (E : Env) (bugzilla_user : string) : M unit :=
  if dict_mem String.eqb bugzilla_user (bugzilla_users (conf E)) then ret tt
  else raise (Exception ("Bugzilla user `" +++ bugzilla_user +++
                         "` not found in user_mappings.yml. " +++
                         "Please add them before continuing.")).

(** [set_user_isadmin], lines 337-343: the call passes no [dry_run]. *)
Definition set_user_isadmin (E : Env) (private_token : pyval) (user_id : Z)
           (state : string) : M response :=
  let header := [("private-token", private_token)] in
  let url := gitlab_base_url (conf E) +++ "/users/" +++ str_of_int user_id in
  let data := [("admin", VStr state)] in
  _perform_request E
    {| req_url := url; req_method := "put"; req_headers := header;
       req_data := data; req_files := None; req_json := None;
       req_dry_run := None |}.

(* ===================================================================== *)
(** ** class Attachment *)
(* ===================================================================== *)

Module Attachment.

Record t : Type := {
  id : Z;
  filename : string;
  headers : list (string * pyval);
  markdown : string
}.

(** The pattern of [parse_comment_text] under [re.M]: [^], the literal
    [Created an attachment (id=], group 1 around [\d+], the literal [)],
    then [.*] and [$]. *)
Definition announcement_regex : regex :=
  Seq (Lit "Created an attachment (id=")
      (Seq (Grp (Plus digit))
           (Seq (Lit ")") (Seq (Star dot) Eol))).

(** [parse_comment_text], lines 308-314: [False] or the parsed id. *)
Definition parse_comment_text (comment : string) : pyval :=
  match re_match announcement_regex comment with
  | None => VBool false
  | Some (_, g) =>
      match g with
      | Some digits => VInt (int_of_digits digits)
      | None => VBool false
      end
  end.

Section WithEnv.
Variable E : Env.

(** [__upload_attachment], lines 316-329. *)
Definition __upload_attachment (self_id : Z) (self_filename : string)
           (self_headers : list (string * pyval)) : M string :=
  let url := bugzilla_base_url (conf E) +++ "/attachment.cgi?id=" +++
             str_of_int self_id in
  result <- _perform_request E
              {| req_url := url; req_method := "get"; req_headers := [];
                 req_data := []; req_files := None;
                 req_json := Some false; req_dry_run := None |} ;;
  let url := gitlab_base_url (conf E) +++ "/projects/" +++
             gitlab_project_id (conf E) +++ "/uploads" in
  let f := (self_filename, content result) in
  attachment <- _perform_request E
              {| req_url := url; req_method := "post";
                 req_headers := self_headers;
                 req_data := []; req_files := Some f;
                 req_json := Some true;
                 req_dry_run := Some (dry_run (conf E)) |} ;;
  if dry_run (conf E) then
    ret ("[attachment](" +++ self_filename +++ ")")
  else lookup (json_markdown attachment) "markdown".

(** [Attachment(bugzilla_attachment_id, filename)], lines 299-303. *)
Definition __init__ (bugzilla_attachment_id : Z) (fname : string) : M t :=
  let hdrs := default_headers (conf E) in
  md <- __upload_attachment bugzilla_attachment_id fname hdrs ;;
  ret {| id := bugzilla_attachment_id; filename := fname;
         headers := hdrs; markdown := md |}.

(** [str(attachment)]. *)
Definition __str__ (self : t) : string := markdown self.
End WithEnv.

End Attachment.

(* ===================================================================== *)
(** ** class Issue *)
(* ===================================================================== *)

(** [l.remove(x)]: drop the first element equal to [x]. *)
Fixpoint list_remove (x : string) (l : list string) : list string :=
  match l with
  | [] => []
  | y :: l' => if String.eqb x y then l' else y :: list_remove x l'
  end.

(** [del l[i]]; out of range it raises [IndexError]. *)
Fixpoint del_at {A} (i : nat) (l : list A) : result (list A) :=
  match i, l with
  | _, [] => Raise IndexError
  | O, _ :: l' => OK l'
  | S j, x :: l' =>
      match del_at j l' with
      | OK r => OK (x :: r)
      | Raise e => Raise e
      end
  end.

(** The integer a value denotes where the code uses it as one ([True]
    is [1]). *)
Definition as_int (v : pyval) : Z :=
  match v with
  | VInt n => n
  | VBool true => 1%Z
  | _ => 0%Z
  end.

(** [str(v)] for the values [parse_comment_text] returns. *)
Definition str_of_val (v : pyval) : string :=
  match v with
  | VInt n => str_of_int n
  | VBool true => "True"
  | VBool false => "False"
  | VNone => "None"
  | VStr s => s
  end.

Module Issue.

Record t : Type := {
  headers : list (string * pyval);
  created_at : string;
  title : string;
  sudo : Z;
  assignee_id : Z;
  status : string;
  labels : string;
  description : string;
  attachments : list (Z * Attachment.t);
  id : option Z;
  iid : option Z
}.

(** The state of the registry loop, lines 130-146; [seen] collects the
    entries of [fields["attachment"]] as the loop leaves them. *)
Record registry : Type := {
  reg_attachments : list (Z * Attachment.t);
  attachment_files : list string;
  obsolete_attachments : list Z;
  seen : list attachment_fields
}.

Definition empty_registry : registry :=
  {| reg_attachments := []; attachment_files := [];
     obsolete_attachments := []; seen := [] |}.

(** Lines 137-143: the name under which a non-obsolete attachment is
    registered and the updated list of tracked names. *)
Definition dedup_filename (fname : string) (files : list string)
  : string * list string :=
  let matchs := filter (fun x => contains fname x) files in
  match matchs with
  | [m] =>
      let fname' := "x" +++ m in
      (fname', list_remove m files ++ [fname'])
  | _ => (fname, files ++ [fname])
  end.

(** The pattern of line 162: the literal [Created], [.*], the literal
    [(id=], [\d+], the literal [)], and then once or twice (greedy) the
    non-capturing group of [.*] followed by [\n*]. *)
Definition line_and_breaks : regex := Seq (Star dot) (Star newline).
Definition boilerplate_regex : regex :=
  Seq (Lit "Created")
      (Seq (Star dot)
           (Seq (Lit "(id=")
                (Seq (Plus digit)
                     (Seq (Lit ")")
                          (Seq line_and_breaks (Opt line_and_breaks)))))).

(** The pattern of line 188 under [re.M]: [^], group 1 around [\S*],
    then [\s?], [.*] and [$]. *)
Definition submitter_regex : regex :=
  Seq (Grp (Star nonspace)) (Seq (Opt (Cls space)) (Seq (Star dot) Eol)).

Definition missing_attachment (attachment_id : pyval) (text : string) : exn :=
  Exception ("Match `" +++ str_of_val attachment_id +++
             "' found in comment `" +++ text +++
             "', but attachment does not exist!").

Definition tag_comment (comment : comment_fields) (rep : string)
           (attachment_id : Z) : comment_fields :=
  {| who := who comment; bug_when := bug_when comment;
     thetext := rep; c_attachid := Some attachment_id |}.

(** One iteration of the loop of lines 149-168 on [long_desc[i]]: the
    entry as the iteration leaves it and whether [i] is appended to
    [to_delete]. *)
Definition scan_comment (reporter_name : string)
           (atts : list (Z * Attachment.t)) (obsolete : list Z)
           (comment : comment_fields) : result (comment_fields * bool) :=
  let attachment_id := Attachment.parse_comment_text (thetext comment) in
  if truthy attachment_id then
    if String.eqb (who comment) reporter_name then
      if dict_mem Z.eqb (as_int attachment_id) atts
         || int_in (as_int attachment_id) obsolete
      then OK (comment, true)
      else Raise (missing_attachment attachment_id (thetext comment))
    else
      if dict_mem Z.eqb (as_int attachment_id) atts
         || int_in (as_int attachment_id) obsolete
      then
        let txt := thetext comment in
        let rep := re_sub1 boilerplate_regex txt in
        OK (tag_comment comment rep (as_int attachment_id), false)
      else Raise (missing_attachment attachment_id (thetext comment))
  else OK (comment, false).

(** The loop of lines 149-168 from index [i] on: the entries as left
    by the loop and [to_delete]. *)
Fixpoint scan_comments (reporter_name : string)
         (atts : list (Z * Attachment.t)) (obsolete : list Z)
         (i : nat) (l : list comment_fields)
  : result (list comment_fields * list nat) :=
  match l with
  | [] => OK ([], [])
  | comment :: rest =>
      match scan_comment reporter_name atts obsolete comment with
      | Raise e => Raise e
      | OK (comment', del) =>
          match scan_comments reporter_name atts obsolete (S i) rest with
          | Raise e => Raise e
          | OK (rest', to_delete) =>
              OK (comment' :: rest', if del then i :: to_delete else to_delete)
          end
      end
  end.

(** Lines 171-172: [for i in reversed(to_delete): del long_desc[i]]. *)
Fixpoint delete_all (indices : list nat) (l : list comment_fields)
  : result (list comment_fields) :=
  match indices with
  | [] => OK l
  | i :: indices' =>
      match del_at i l with
      | OK l' => delete_all indices' l'
      | Raise e => Raise e
      end
  end.

Definition delete_marked (to_delete : list nat) (l : list comment_fields)
  : result (list comment_fields) :=
  delete_all (rev to_delete) l.

(** Lines 148-172 together. *)
Definition reconcile_comments (reporter_name : string)
           (atts : list (Z * Attachment.t)) (obsolete : list Z)
           (l : list comment_fields) : result (list comment_fields) :=
  match scan_comments reporter_name atts obsolete 0 l with
  | Raise e => Raise e
  | OK (l', to_delete) => delete_marked to_delete l'
  end.

Definition ext_heading : string :=
  nl +++ "## Extended Description " +++ nl.

Section WithEnv.
Variable E : Env.

(** [create_labels], lines 75-92. *)
Definition create_labels (comp : string) (operating_system : option string)
  : string :=
  let labels := [] in
  let labels :=
    match default_gitlab_labels (conf E) with
    | [] => labels
    | dl => labels ++ dl
    end in
  let component_label := dict_get String.eqb comp (component_mappings (conf E)) in
  let labels :=
    if truthy_str component_label
    then labels ++ [match component_label with Some c => c | None => "" end]
    else labels in
  let labels :=
    match operating_system with
    | Some os =>
        if nonempty os && negb (String.eqb os "Other")
        then labels ++ [os] else labels
    | None => labels
    end in
  join "," labels.

(** Lines 123-128: folding the first comment into the description.
    Gives [ext_description] and [long_desc] as the step leaves
    them. *)
Definition fold_first_comment (reporter_name : string)
           (l : list comment_fields) : result (string * list comment_fields) :=
  match l with
  | [] => Raise IndexError
  | first :: rest =>
      if String.eqb reporter_name (who first) && nonempty (thetext first)
      then
        OK (ext_heading +++
            join (nl +++ nl)
                 (re_split (split_on_empty E) (Star newline)
                           (needs_quoting (thetext first))),
            rest)
      else OK (EmptyString, l)
  end.

(** One iteration of the loop of lines 133-146. *)
Definition register (st : registry) (attachment : attachment_fields)
  : M registry :=
  if negb (isobsolete attachment) then
    let '(fname, files) :=
      dedup_filename (filename attachment) (attachment_files st) in
    a <- Attachment.__init__ E (attachid attachment) fname ;;
    ret {| reg_attachments :=
             dict_set Z.eqb (attachid attachment) a (reg_attachments st);
           attachment_files := files;
           obsolete_attachments := obsolete_attachments st;
           seen := seen st ++
                   [{| attachid := attachid attachment; filename := fname;
                       isobsolete := isobsolete attachment |}] |}
  else
    ret {| reg_attachments := reg_attachments st;
           attachment_files := attachment_files st;
           obsolete_attachments :=
             obsolete_attachments st ++ [attachid attachment];
           seen := seen st ++ [attachment] |}.

(** The loop of lines 133-146. *)
Fixpoint build_registry (st : registry) (l : list attachment_fields)
  : M registry :=
  match l with
  | [] => ret st
  | attachment :: rest =>
      st' <- register st attachment ;;
      build_registry st' rest
  end.

(** Lines 183-193: the optional Reporter row. *)
Definition reporter_row (reporter_name ext_description : string)
  : M string :=
  if String.eqb reporter_name (bugzilla_auto_reporter (conf E)) then
    let '(_, part, user_data) := rpartition "Submitter was " ext_description in
    if nonempty part then
      match re_match submitter_regex user_data with
      | Some (_, Some email) => ret (markdown_row E "Reporter" (Some email))
      | _ => raise (AttributeError "group")
      end
    else ret EmptyString
  else
    mapped <- lookup (dict_get String.eqb reporter_name (bugzilla_users (conf E)))
                     reporter_name ;;
    if String.eqb mapped (gitlab_misc_user (conf E))
    then ret (markdown_row E "Reporter" (Some reporter_name))
    else ret EmptyString.

(** [create_description], lines 94-197.  Gives [fields] as the call
    leaves them, [self.description] and the returned registry. *)
Definition create_description (fields : Fields)
  : M (Fields * string * list (Z * Attachment.t)) :=
  let description := markdown_row E "" (Some "") in
  let description := description +++ markdown_row E "---" (Some "---") in
  let description :=
    if include_bugzilla_link (conf E) then
      let link := bugzilla_base_url (conf E) +++ "/show_bug.cgi?id=" +++
                  bug_id fields in
      description +++
      markdown_row E "Bugzilla Link"
                   (Some ("[" +++ bug_id fields +++ "](" +++ link +++ ")"))
    else description in
  formatted_dt <- format_dt E (creation_ts fields) ;;
  let description :=
    description +++ markdown_row E "Created on" (Some formatted_dt) in
  description <-
    (if truthy_str (resolution fields) then
       resolved_on <- format_dt E (delta_ts fields) ;;
       ret (description +++
            markdown_row E "Resolution" (resolution fields) +++
            markdown_row E "Resolved on" (Some resolved_on))
     else ret description) ;;
  let description := description +++ markdown_row E "Version" (version fields) in
  let description := description +++ markdown_row E "OS" (op_sys fields) in
  let description :=
    description +++ markdown_row E "Architecture" (rep_platform fields) in
  (* add first comment to the issue description *)
  folded <- lift (fold_first_comment (reporter fields) (long_desc fields)) ;;
  let '(ext_description, comments) := folded in
  st <- build_registry empty_registry (attachment fields) ;;
  let atts := reg_attachments st in
  comments <- lift (reconcile_comments (reporter fields) atts
                                       (obsolete_attachments st) comments) ;;
  let description :=
    match atts with
    | [] => description
    | _ =>
        description +++
        markdown_row E "Attachments"
          (Some (join ", " (map Attachment.__str__ (dict_values atts))))
    end in
  description <-
    (if nonempty ext_description then
       row <- reporter_row (reporter fields) ext_description ;;
       ret (description +++ row +++ ext_description)
     else ret description) ;;
  ret (set_attachment (seen st) (set_long_desc comments fields),
       description, atts).

(** [load_fields], lines 66-73, after the two checks of [__init__],
    lines 60-64. *)
Definition load_fields (hdrs : list (string * pyval)) (fields : Fields)
  : M (t * Fields) :=
  created <- parse_isoformat E (creation_ts fields) ;;
  reporter_user <- lookup (dict_get String.eqb (reporter fields)
                                    (bugzilla_users (conf E)))
                          (reporter fields) ;;
  sudo_id <- lookup (dict_get String.eqb reporter_user (gitlab_users (conf E)))
                    reporter_user ;;
  assignee_user <- lookup (dict_get String.eqb (assigned_to fields)
                                    (bugzilla_users (conf E)))
                          (assigned_to fields) ;;
  assignee <- lookup (dict_get String.eqb assignee_user (gitlab_users (conf E)))
                     assignee_user ;;
  let lbls := create_labels (component fields) (op_sys fields) in
  described <- create_description fields ;;
  let '(fields', descr, atts) := described in
  ret ({| headers := hdrs; created_at := created;
          title := short_desc fields; sudo := sudo_id;
          assignee_id := assignee; status := bug_status fields;
          labels := lbls; description := descr; attachments := atts;
          id := None; iid := None |}, fields').

Definition __init__ (bugzilla_fields : Fields) : M (t * Fields) :=
  let hdrs := default_headers (conf E) in
  validate_user E (reporter bugzilla_fields) ;;;
  validate_user E (assigned_to bugzilla_fields) ;;;
  load_fields hdrs bugzilla_fields.

(** [validate], lines 199-204. *)
Definition validate (self : t) : M bool :=
  if negb (nonempty (title self)) then
    raise (Exception "Missing value for required field: title")
  else if negb (nonempty (description self)) then
    raise (Exception "Missing value for required field: description")
  else if negb (nonempty (status self)) then
    raise (Exception "Missing value for required field: status")
  else ret true.

(** The payload of line 212: the instance attributes listed in
    [data_fields], in the order they were assigned. *)
Definition data (self : t) : list (string * pyval) :=
  [("created_at", VStr (created_at self));
   ("title", VStr (title self));
   ("assignee_id", VInt (assignee_id self));
   ("status", VStr (status self));
   ("labels", VStr (labels self));
   ("description", VStr (description self))].

Definition issues_url : string :=
  gitlab_base_url (conf E) +++ "/projects/" +++ gitlab_project_id (conf E)
  +++ "/issues".

Definition post_request (self : t) : request :=
  {| req_url := issues_url; req_method := "post";
     req_headers := dict_set String.eqb "sudo" (VInt (sudo self)) (headers self);
     req_data := data self; req_files := None; req_json := Some true;
     req_dry_run := Some (dry_run (conf E)) |}.

(** Lines 208-209 and 218-219: grant or withdraw admin rights unless
    the user is an admin already. *)
Definition toggle_admin (hdrs : list (string * pyval)) (user : Z)
           (state : string) : M unit :=
  is_admin <- lookup (dict_get Z.eqb user (gitlab_user_admins (conf E)))
                     (str_of_int user) ;;
  if negb is_admin then
    token <- lookup (dict_get String.eqb "private-token" hdrs) "private-token" ;;
    set_user_isadmin E token user state ;;;
    ret tt
  else ret tt.

Definition set_headers (h : list (string * pyval)) (self : t) : t :=
  {| headers := h; created_at := created_at self; title := title self;
     sudo := sudo self; assignee_id := assignee_id self;
     status := status self; labels := labels self;
     description := description self; attachments := attachments self;
     id := id self; iid := iid self |}.

Definition set_ids (new_id new_iid : Z) (self : t) : t :=
  {| headers := headers self; created_at := created_at self;
     title := title self; sudo := sudo self;
     assignee_id := assignee_id self; status := status self;
     labels := labels self; description := description self;
     attachments := attachments self;
     id := Some new_id; iid := Some new_iid |}.

(** [save], lines 206-228; gives [self] as the call leaves it. *)
Definition save (self : t) : M t :=
  validate self ;;;
  toggle_admin (headers self) (sudo self) "true" ;;;
  let req := post_request self in
  let self := set_headers (req_headers req) self in
  response <- _perform_request E req ;;
  toggle_admin (headers self) (sudo self) "false" ;;;
  if dry_run (conf E) then
    (* assign a random number so that program can continue *)
    ret (set_ids 5 50 self)
  else
    new_iid <- lookup (json_iid response) "iid" ;;
    new_id <- lookup (json_id response) "id" ;;
    ret (set_ids new_id new_iid self).

Definition close_request (self : t) (issue_iid : Z) : request :=
  {| req_url := issues_url +++ "/" +++ str_of_int issue_iid;
     req_method := "put";
     req_headers := dict_set String.eqb "sudo" (VInt (sudo self)) (headers self);
     req_data := [("state_event", VStr "close")];
     req_files := None; req_json := None;
     req_dry_run := Some (dry_run (conf E)) |}.

(** [close], lines 231-239. *)
Definition close (self : t) : M t :=
  match iid self with
  | None => raise (AttributeError "iid")
  | Some issue_iid =>
      let req := close_request self issue_iid in
      _perform_request E req ;;;
      ret (set_headers (req_headers req) self)
  end.
End WithEnv.

End Issue.

(* ===================================================================== *)
(** ** class Comment *)
(* ===================================================================== *)

Module Comment.

Record t : Type := {
  headers : list (string * pyval);
  attachments : list (Z * Attachment.t);
  sudo : Z;
  body : string;
  created_at : string;
  issue_id : option Z
}.

Section WithEnv.
Variable E : Env.

(** [Comment(bugzilla_fields, attachments)], lines 250-272. *)
Definition __init__ (fields : comment_fields)
           (atts : list (Z * Attachment.t)) : M t :=
  let hdrs := default_headers (conf E) in
  validate_user E (who fields) ;;;
  mapped <- lookup (dict_get String.eqb (who fields) (bugzilla_users (conf E)))
                   (who fields) ;;
  sudo_id <- lookup (dict_get String.eqb mapped (gitlab_users (conf E))) mapped ;;
  (* if unable to comment as the original user, put username in comment body *)
  let body0 :=
    if String.eqb mapped (gitlab_misc_user (conf E))
    then "By " +++ who fields +++ nl +++ nl
    else EmptyString in
  created <- parse_isoformat E (bug_when fields) ;;
  body1 <-
    (match c_attachid fields with
     | Some attachment_id =>
         if negb (attachment_id =? 0)%Z then
           a <- lookup (dict_get Z.eqb attachment_id atts)
                       (str_of_int attachment_id) ;;
           ret (body0 +++ Attachment.__str__ a +++ nl)
         else ret body0
     | None => ret body0
     end) ;;
  ret {| headers := hdrs; attachments := atts; sudo := sudo_id;
         body := body1 +++ needs_quoting (thetext fields);
         created_at := created; issue_id := None |}.

(** [validate], lines 274-278. *)
Definition validate (self : t) : M unit :=
  if negb (nonempty (body self)) then
    raise (Exception "Missing value for required field: body")
  else
    match issue_id self with
    | None => raise (AttributeError "issue_id")
    | Some n =>
        if (n =? 0)%Z
        then raise (Exception "Missing value for required field: issue_id")
        else ret tt
    end.

Definition data (self : t) : list (string * pyval) :=
  [("body", VStr (body self)); ("created_at", VStr (created_at self))].

Definition notes_url (issue : Z) : string :=
  Issue.issues_url E +++ "/" +++ str_of_int issue +++ "/notes".

Definition post_request (self : t) (issue : Z) : request :=
  {| req_url := notes_url issue; req_method := "post";
     req_headers := dict_set String.eqb "sudo" (VInt (sudo self)) (headers self);
     req_data := data self; req_files := None; req_json := Some true;
     req_dry_run := Some (dry_run (conf E)) |}.

Definition set_headers (h : list (string * pyval)) (self : t) : t :=
  {| headers := h; attachments := attachments self; sudo := sudo self;
     body := body self; created_at := created_at self;
     issue_id := issue_id self |}.

Definition set_issue_id (n : Z) (self : t) : t :=
  {| headers := headers self; attachments := attachments self;
     sudo := sudo self; body := body self;
     created_at := created_at self; issue_id := Some n |}.

(** [save], lines 280-293; gives [self] as the call leaves it. *)
Definition save (self : t) : M t :=
  validate self ;;;
  Issue.toggle_admin E (headers self) (sudo self) "true" ;;;
  match issue_id self with
  | None => raise (AttributeError "issue_id")
  | Some issue =>
      let req := post_request self issue in
      let self := set_headers (req_headers req) self in
      _perform_request E req ;;;
      Issue.toggle_admin E (headers self) (sudo self) "false" ;;;
      ret self
  end.
End WithEnv.

End Comment.

(* ===================================================================== *)
(** ** class IssueThread *)
(* ===================================================================== *)

Module IssueThread.

Record t : Type := {
  issue : Issue.t;
  comments : list Comment.t
}.

Section WithEnv.
Variable E : Env.

(** The loop of lines 32-34 over the pared-down [long_desc]. *)
Fixpoint load_comments (atts : list (Z * Attachment.t))
         (l : list comment_fields) : M (list Comment.t) :=
  match l with
  | [] => ret []
  | comment_fields :: rest =>
      if nonempty (thetext comment_fields) then
        c <- Comment.__init__ E comment_fields atts ;;
        cs <- load_comments atts rest ;;
        ret (c :: cs)
      else load_comments atts rest
  end.

(** [load_objects], lines 18-34. *)
Definition load_objects (fields : Fields) : M (t * Fields) :=
  built <- Issue.__init__ E fields ;;
  let '(the_issue, fields') := built in
  cs <- load_comments (Issue.attachments the_issue) (long_desc fields') ;;
  ret ({| issue := the_issue; comments := cs |}, fields').

(** [IssueThread(config, fields)], lines 13-16; [config] is the
    configuration of [E]. *)
Definition __init__ (fields : Fields) : M (t * Fields) :=
  load_objects fields.

(** The loop of lines 43-45. *)
Fixpoint save_comments (issue_iid : option Z) (l : list Comment.t)
  : M (list Comment.t) :=
  match l with
  | [] => ret []
  | comment :: rest =>
      n <- getattr issue_iid "iid" ;;
      c <- Comment.save E (Comment.set_issue_id n comment) ;;
      cs <- save_comments issue_iid rest ;;
      ret (c :: cs)
  end.

(** [save], lines 36-49. *)
Definition save (self : t) : M t :=
  the_issue <- Issue.save E (issue self) ;;
  cs <- save_comments (Issue.iid the_issue) (comments self) ;;
  (* close the issue in GitLab, if it is resolved in Bugzilla *)
  if String.eqb (Issue.status the_issue) "RESOLVED" then
    closed <- Issue.close E the_issue ;;
    ret {| issue := closed; comments := cs |}
  else ret {| issue := the_issue; comments := cs |}.
End WithEnv.

End IssueThread.

(* ===================================================================== *)
(** * Vocabulary of the properties *)
(* ===================================================================== *)

(** The characters that force quoting on their own. *)
Definition trigger_chars : list ascii :=
  ["#"; ">"; "_"; "-"; "~"; "|"; "*"; "+"; "@"]%char.

(** The condition of the contract: some trigger character occurs, or
    the equals sign occurs more than once. *)
Definition must_quote (txt : string) : Prop :=
  (exists c, In c trigger_chars /\ In c (list_ascii_of_string txt)) \/
  (1 < count_occ ascii_dec (list_ascii_of_string txt) "="%char)%nat.

Definition pre_block (txt : string) : string := "<pre>" +++ txt +++ "</pre>".

(** The longest run of characters of a class at the head of a string,
    and what follows it. *)
Fixpoint take_run (p : ascii -> bool) (s : string) : string :=
  match s with
  | String c s' => if p c then String c (take_run p s') else EmptyString
  | EmptyString => EmptyString
  end.

Fixpoint drop_run (p : ascii -> bool) (s : string) : string :=
  match s with
  | String c s' => if p c then drop_run p s' else s
  | EmptyString => EmptyString
  end.

Fixpoint all_chars (p : ascii -> bool) (s : string) : bool :=
  match s with
  | String c s' => p c && all_chars p s'
  | EmptyString => true
  end.

(** The shape of a text that [parse_comment_text] recognises: the fixed
    words, a non-empty run of digits, a closing parenthesis, and
    anything after it. *)
Definition announces (txt ds rest : string) : Prop :=
  txt = "Created an attachment (id=" +++ ds +++ ")" +++ rest /\
  ds <> EmptyString /\
  all_chars digit ds = true.

(** What [re.sub] removes from an announcement: the line it starts on,
    the line breaks after it, the next line and the line breaks after
    that one. *)
Definition drop_line_and_breaks (s : string) : string :=
  drop_run newline (drop_run dot s).

Definition strip_two_lines (s : string) : string :=
  drop_line_and_breaks (drop_line_and_breaks s).

Definition stripped_prefix (s : string) : string :=
  take_run dot s +++ take_run newline (drop_run dot s) +++
  take_run dot (drop_line_and_breaks s) +++
  take_run newline (drop_run dot (drop_line_and_breaks s)).

(** An id resolves when it is a key of the registry or a member of the
    obsolete list. *)
Definition resolves (atts : list (Z * Attachment.t)) (obsolete : list Z)
           (n : Z) : bool :=
  dict_mem Z.eqb n atts || int_in n obsolete.

(** The reconciliation of lines 148-172 in one pass: each comment is
    dropped, rewritten or kept on the spot. *)
Fixpoint reconciled (reporter_name : string) (atts : list (Z * Attachment.t))
         (obsolete : list Z) (l : list comment_fields)
  : result (list comment_fields) :=
  match l with
  | [] => OK []
  | comment :: rest =>
      match Issue.scan_comment reporter_name atts obsolete comment with
      | Raise e => Raise e
      | OK (comment', del) =>
          match reconciled reporter_name atts obsolete rest with
          | Raise e => Raise e
          | OK rest' => OK (if del then rest' else comment' :: rest')
          end
      end
  end.

(** A comment that the scan rejects: it passes the test of line 153 and
    its id resolves nowhere. *)
Definition unresolved (atts : list (Z * Attachment.t)) (obsolete : list Z)
           (comment : comment_fields) : Prop :=
  let attachment_id := Attachment.parse_comment_text (thetext comment) in
  truthy attachment_id = true /\
  resolves atts obsolete (as_int attachment_id) = false.

(** A sample installation: two mapped users, every request answered. *)
Definition demo_conf (dry : bool) : Config :=
  {| default_headers := [("private-token", VStr "secret")];
     bugzilla_users := [("alice", "alice.gl"); ("bob", "bob.gl")];
     gitlab_users := [("alice.gl", 1%Z); ("bob.gl", 2%Z)];
     gitlab_user_admins := [(1%Z, true); (2%Z, false)];
     default_gitlab_labels := ["bugzilla"];
     component_mappings := [("core", "Core")];
     include_bugzilla_link := true;
     bugzilla_base_url := "https://bugs.example";
     gitlab_base_url := "https://git.example/api/v4";
     gitlab_project_id := "42";
     datetime_format_string := "%b %d, %Y %H:%M";
     bugzilla_auto_reporter := "auto@bugs.example";
     gitlab_misc_user := "misc.gl";
     dry_run := dry |}.

Definition demo_response : response :=
  {| content := "bytes";
     json_markdown := Some "![file](/uploads/1/file)";
     json_iid := Some 7%Z;
     json_id := Some 70%Z |}.

Definition no_response : response :=
  {| content := EmptyString; json_markdown := None;
     json_iid := None; json_id := None |}.

Definition demo_row (key : string) (value : option string) : string :=
  "| " +++ key +++ " | " +++
  match value with Some v => v | None => "None" end +++ " |" +++ nl.

Definition demo_env (dry : bool) : Env :=
  {| conf := demo_conf dry;
     markdown_table_row := demo_row;
     format_datetime := fun text _ => Some text;
     dateparser_isoformat := fun text => Some text;
     backend := fun _ _ => Some demo_response;
     dry_run_response := no_response;
     split_on_empty := true |}.

(** The same installation with the remote end down. *)
Definition offline_env (dry : bool) : Env :=
  {| conf := demo_conf dry;
     markdown_table_row := demo_row;
     format_datetime := fun text _ => Some text;
     dateparser_isoformat := fun text => Some text;
     backend := fun _ _ => None;
     dry_run_response := no_response;
     split_on_empty := true |}.

Definition demo_comment (author text : string) : comment_fields :=
  {| who := author; bug_when := "2019-03-01 10:00:00";
     thetext := text; c_attachid := None |}.

Definition demo_attachment (n : Z) (name : string) (obsolete : bool)
  : attachment_fields :=
  {| attachid := n; filename := name; isobsolete := obsolete |}.

Definition demo_fields (state : string) (comments : list comment_fields)
           (atts : list attachment_fields) : Fields :=
  {| bug_id := "1234"; creation_ts := "2019-03-01 10:00:00";
     delta_ts := "2019-04-01 10:00:00"; short_desc := "Crash on start";
     reporter := "alice"; assigned_to := "bob"; bug_status := state;
     component := "core"; op_sys := Some "Linux";
     resolution := None; version := Some "1.0";
     rep_platform := Some "x86_64";
     long_desc := comments; attachment := atts |}.

(** The names under which the registry holds its attachments, in
    insertion order. *)
Definition registered_names (st : Issue.registry) : list string :=
  map (fun kv => Attachment.filename (snd kv)) (Issue.reg_attachments st).



(** The two requests of [__upload_attachment]: the download from the
    source tracker and the upload to the destination. *)
Definition download_request (E : Env) (attachment_id : Z) : request :=
  {| req_url := bugzilla_base_url (conf E) +++ "/attachment.cgi?id=" +++
                str_of_int attachment_id;
     req_method := "get"; req_headers := []; req_data := [];
     req_files := None; req_json := Some false; req_dry_run := None |}.

Definition upload_request (E : Env) (fname data : string) : request :=
  {| req_url := gitlab_base_url (conf E) +++ "/projects/" +++
                gitlab_project_id (conf E) +++ "/uploads";
     req_method := "post"; req_headers := default_headers (conf E);
     req_data := []; req_files := Some (fname, data);
     req_json := Some true; req_dry_run := Some (dry_run (conf E)) |}.

(** The ids of the attachments of a record that are not obsolete, and
    of those that are, in source order. *)
Definition active_ids (l : list attachment_fields) : list Z :=
  map attachid (filter (fun a => negb (isobsolete a)) l).

Definition obsolete_ids (l : list attachment_fields) : list Z :=
  map attachid (filter isobsolete l).



(** What a logged request asks the destination to do, read off its
    payload. *)
Inductive directive : Type :=
| SubmitIssue
| SubmitComment (body : string)
| CloseIssue
| ToggleAdmin
| OtherRequest.

Definition kind (r : request) : directive :=
  match req_data r with
  | (key, value) :: _ =>
      if String.eqb key "state_event" then CloseIssue
      else if String.eqb key "admin" then ToggleAdmin
      else if String.eqb key "body" then SubmitComment (str_of_val value)
      else if String.eqb key "created_at" then SubmitIssue
      else OtherRequest
  | [] => OtherRequest
  end.

Definition is_toggle (d : directive) : bool :=
  match d with ToggleAdmin => true | _ => false end.

(** The directives of a stretch of the log, without the switching of
    admin rights around each submission. *)
Definition directives (evs : list request) : list directive :=
  filter (fun d => negb (is_toggle d)) (map kind evs).

(** The directives of a complete [save]: the issue, its comments in
    order, and the close directive when the bug is resolved. *)
Definition expected_directives (self : IssueThread.t) : list directive :=
  SubmitIssue ::
  map (fun c => SubmitComment (Comment.body c)) (IssueThread.comments self) ++
  (if String.eqb (Issue.status (IssueThread.issue self)) "RESOLVED"
   then [CloseIssue] else []).

(** What [Issue.validate] checks. *)
Definition validated (self : Issue.t) : Prop :=
  Issue.title self <> EmptyString /\
  Issue.description self <> EmptyString /\
  Issue.status self <> EmptyString.

(** A thread as [load_objects] builds it for the sample installation. *)
Definition demo_issue (state : string) : Issue.t :=
  {| Issue.headers := [("private-token", VStr "secret")];
     Issue.created_at := "2019-03-01T10:00:00";
     Issue.title := "Crash on start";
     Issue.sudo := 1;
     Issue.assignee_id := 2;
     Issue.status := state;
     Issue.labels := "bugzilla,Core,Linux";
     Issue.description := "| Version | 1.0 |";
     Issue.attachments := [];
     Issue.id := None;
     Issue.iid := None |}.

Definition demo_note (author : Z) (text : string) : Comment.t :=
  {| Comment.headers := [("private-token", VStr "secret")];
     Comment.attachments := [];
     Comment.sudo := author;
     Comment.body := text;
     Comment.created_at := "2019-03-02T10:00:00";
     Comment.issue_id := None |}.

Definition demo_thread (state : string) : IssueThread.t :=
  {| IssueThread.issue := demo_issue state;
     IssueThread.comments := [demo_note 2 "I see it too"; demo_note 1 "Fixed"] |}.

(** The message of [validate_user] for a user without mapping. *)
Definition unmapped_message (user : string) : string :=
  "Bugzilla user `" +++ user +++
  "` not found in user_mappings.yml. Please add them before continuing.".

(** The text that Bugzilla puts at the head of a comment that adds the
    attachment [n]. *)
Definition announcement_of (n : Z) (rest : string) : string :=
  "Created an attachment (id=" +++ str_of_int n +++ ")" +++ rest.

(** The request of [set_user_isadmin]. *)
Definition toggle_request (E : Env) (token : pyval) (user : Z) (state : string)
  : request :=
  {| req_url := gitlab_base_url (conf E) +++ "/users/" +++ str_of_int user;
     req_method := "put"; req_headers := [("private-token", token)];
     req_data := [("admin", VStr state)]; req_files := None;
     req_json := None; req_dry_run := None |}.

(** A record whose reporter is not in the user mapping of the sample
    installation. *)
Definition unmapped_fields : Fields :=
  {| bug_id := "7"; creation_ts := "2019-03-01"; delta_ts := "2019-03-02";
     short_desc := "Typo"; reporter := "carol"; assigned_to := "bob";
     bug_status := "NEW"; component := "docs"; op_sys := None;
     resolution := None; version := None; rep_platform := None;
     long_desc := [demo_comment "carol" "There is a typo"];
     attachment := [demo_attachment 9 "shot.png" false] |}.

(** The labels that do not depend on the operating system: the default
    ones and the one of the component. *)
Definition base_labels (E : Env) (comp : string) : list string :=
  default_gitlab_labels (conf E) ++
  match dict_get String.eqb comp (component_mappings (conf E)) with
  | Some label => if nonempty label then [label] else []
  | None => []
  end.

(** What a comment contributes to the reconciled stream when the scan
    accepts it: nothing for an announcement of the reporter, the
    stripped and tagged comment for an announcement of someone else, the
    comment itself otherwise. *)
Definition reconciled_entry (reporter_name : string) (c : comment_fields)
  : list comment_fields :=
  match Attachment.parse_comment_text (thetext c) with
  | VInt n =>
      if (n =? 0)%Z then [c]
      else if String.eqb (who c) reporter_name then []
      else [Issue.tag_comment c (strip_two_lines (thetext c)) n]
  | _ => [c]
  end.

(** The entries of a record that [load_objects] turns into comments. *)
Definition with_text (l : list comment_fields) : list comment_fields :=
  filter (fun c => nonempty (thetext c)) l.

(** The attachments of a record that are not obsolete. *)
Definition active_part (l : list attachment_fields) : list attachment_fields :=
  filter (fun a => negb (isobsolete a)) l.

Definition is_get (r : request) : bool := String.eqb (req_method r) "get".

(** A filename with [k] filler characters in front. *)
Fixpoint filled (k : nat) (fname : string) : string :=
  match k with
  | O => fname
  | S k' => "x" +++ filled k' fname
  end.

(** The requests that go around a submission to switch admin rights. *)
Definition is_toggle_request (E : Env) (q : request) : Prop :=
  exists token user state, q = toggle_request E token user state.

(** The sample installation with a destination that answers the
    switching of admin rights and rejects every submission. *)
Definition rejecting_env : Env :=
  {| conf := demo_conf false;
     markdown_table_row := demo_row;
     format_datetime := fun text _ => Some text;
     dateparser_isoformat := fun text => Some text;
     backend := fun _ req =>
                  if String.eqb (req_method req) "put" then Some demo_response
                  else None;
     dry_run_response := no_response;
     split_on_empty := true |}.

(** An issue of bob, who is no admin in the sample installation. *)
Definition bob_issue : Issue.t :=
  {| Issue.headers := [("private-token", VStr "secret")];
     Issue.created_at := "2019-03-01T10:00:00";
     Issue.title := "Typo in the manual";
     Issue.sudo := 2;
     Issue.assignee_id := 1;
     Issue.status := "NEW";
     Issue.labels := "bugzilla";
     Issue.description := "| Version | 1.0 |";
     Issue.attachments := [];
     Issue.id := None;
     Issue.iid := None |}.

(** A request was answered when the destination returned a result for
    it, or when it was a dry-run call, which has a result without going
    to the network.  [sent] is the log at the time of the call. *)
Definition answered (E : Env) (sent : list request) (q : request) : Prop :=
  network_io q = false \/ exists resp, backend E sent q = Some resp.

(** Every request of a stretch of the log was answered. *)
Fixpoint answered_all (E : Env) (sent evs : list request) : Prop :=
  match evs with
  | [] => True
  | q :: rest => answered E sent q /\ answered_all E (sent ++ [q]) rest
  end.

(** A computation whose requests are all answered, except possibly the
    last one when it raises. *)
Definition tracks {A} (E : Env) (c : M A) : Prop :=
  forall log r log',
    c log = (r, log') ->
    exists evs,
      log' = log ++ evs /\
      answered_all E log (removelast evs) /\
      (forall a, r = OK a -> answered_all E log evs).








(* ===================================================================== *)
(** * Properties *)
(* ===================================================================== *)

(** ** Strings *)

Lemma append_assoc (a b c : string) : (a +++ b) +++ c = a +++ b +++ c.
Proof. induction a as [|x a IH]; simpl; [reflexivity | now rewrite IH]. Qed.

Lemma append_empty_r (a : string) : a +++ EmptyString = a.
Proof. induction a as [|x a IH]; simpl; [reflexivity | now rewrite IH]. Qed.

Lemma length_append (a b : string) :
  String.length (a +++ b) = (String.length a + String.length b)%nat.
Proof. induction a as [|x a IH]; simpl; [reflexivity | now rewrite IH]. Qed.

Lemma char_in_append (c : ascii) (a b : string) :
  char_in c (a +++ b) = char_in c a || char_in c b.
Proof.
  induction a as [|x a IH]; simpl; [reflexivity|].
  rewrite IH. now rewrite orb_assoc.
Qed.

Lemma char_in_In (c : ascii) (s : string) :
  char_in c s = true <-> In c (list_ascii_of_string s).
Proof.
  induction s as [|x s IH]; simpl.
  - split; [discriminate | tauto].
  - rewrite orb_true_iff, IH, Ascii.eqb_eq. split; intros [H|H]; auto.
Qed.

Lemma count_count_occ (c : ascii) (s : string) :
  count c s = count_occ ascii_dec (list_ascii_of_string s) c.
Proof.
  induction s as [|x s IH]; simpl; [reflexivity|].
  rewrite IH. destruct (ascii_dec x c) as [->|Hne].
  - now rewrite Ascii.eqb_refl.
  - destruct (Ascii.eqb_spec c x) as [->|_]; [congruence | reflexivity].
Qed.

(** ** The sanitizer *)

Lemma needs_quoting_wraps (txt : string) :
  must_quote txt -> needs_quoting txt = pre_block txt.
Proof.
  intros [[c [Hc Hin]] | Hcount]; unfold needs_quoting.
  - apply char_in_In in Hin.
    simpl in Hc.
    repeat (destruct Hc as [<- | Hc];
            [rewrite Hin; rewrite ?orb_true_r; reflexivity|]).
    contradiction.
  - rewrite <- count_count_occ in Hcount.
    apply Nat.ltb_lt in Hcount. rewrite Hcount.
    rewrite ?orb_true_r. reflexivity.
Qed.

Lemma needs_quoting_keeps (txt : string) :
  ~ must_quote txt -> needs_quoting txt = txt.
Proof.
  intros Hno. unfold needs_quoting.
  assert (Hc : forall c, In c trigger_chars -> char_in c txt = false).
  { intros c Hc. destruct (char_in c txt) eqn:Hin; [|reflexivity].
    exfalso. apply Hno. left. exists c. split; [assumption|].
    now apply char_in_In. }
  assert (Heq : (1 <? count "=" txt)%nat = false).
  { apply Nat.ltb_ge. rewrite count_count_occ.
    destruct (Nat.le_gt_cases (count_occ ascii_dec (list_ascii_of_string txt) "="%char) 1)
      as [Hle|Hgt]; [assumption|].
    exfalso. apply Hno. right. exact Hgt. }
  rewrite Heq.
  rewrite !Hc by (simpl; tauto).
  reflexivity.
Qed.

Lemma must_quote_dec (txt : string) : must_quote txt \/ ~ must_quote txt.
Proof.
  destruct (existsb (fun c => char_in c txt) trigger_chars) eqn:Hex.
  - left. left. apply existsb_exists in Hex as [c [Hc Hin]].
    exists c. split; [assumption | now apply char_in_In].
  - destruct (1 <? count "=" txt)%nat eqn:Hcount.
    + left. right. rewrite <- count_count_occ. now apply Nat.ltb_lt.
    + right. intros [[c [Hc Hin]] | H].
      * assert (existsb (fun c => char_in c txt) trigger_chars = true).
        { apply existsb_exists. exists c. split; [assumption|].
          now apply char_in_In. }
        congruence.
      * rewrite <- count_count_occ in H. apply Nat.ltb_lt in H. congruence.
Qed.

Lemma pre_block_must_quote (txt : string) : must_quote (pre_block txt).
Proof.
  left. exists ">"%char. split; [simpl; tauto|].
  apply char_in_In. reflexivity.
Qed.

(** C8. The sanitizer contract: a text that contains one of the
    characters #, >, _, -, ~, |, *, +, @ or more than one = is returned
    wrapped whole in one pre block; any other text is returned
    unchanged.  [needs_quoting] is a function from strings to strings:
    it has no effect besides its result. *)
Theorem needs_quoting_contract (txt : string) :
  (must_quote txt -> needs_quoting txt = "<pre>" +++ txt +++ "</pre>") /\
  (~ must_quote txt -> needs_quoting txt = txt).
Proof.
  split.
  - apply needs_quoting_wraps.
  - apply needs_quoting_keeps.
Qed.

Lemma needs_quoting_contract_witness :
  needs_quoting "a=b, c=d" = "<pre>a=b, c=d</pre>" /\
  needs_quoting "x = 1" = "x = 1".
Proof.
  split.
  - apply (proj1 (needs_quoting_contract "a=b, c=d")).
    right. vm_compute. lia.
  - apply (proj2 (needs_quoting_contract "x = 1")).
    intros [[c [Hc Hin]] | H].
    + simpl in Hc, Hin.
      repeat (destruct Hc as [<- | Hc];
              [repeat (destruct Hin as [Hin | Hin]; [discriminate Hin|]);
               contradiction|]).
      contradiction.
    + vm_compute in H. lia.
Defined.

(** C3, as the specification states it, fails: a text that needs
    quoting is wrapped, and the wrapped text, which now contains >, is
    wrapped again. *)
Lemma needs_quoting_not_idempotent :
  needs_quoting (needs_quoting "#") = "<pre><pre>#</pre></pre>" /\
  needs_quoting (needs_quoting "#") <> needs_quoting "#".
Proof. split; [reflexivity | discriminate]. Qed.

(** C3, amended.  Applying the sanitizer twice leaves a text that needs
    no quoting unchanged, and nests a text that needs quoting in two pre
    blocks: the sanitizer does not recognise its own output. *)
Theorem needs_quoting_twice (txt : string) :
  (must_quote txt ->
   needs_quoting (needs_quoting txt) = pre_block (pre_block txt)) /\
  (~ must_quote txt -> needs_quoting (needs_quoting txt) = txt).
Proof.
  split; intros H.
  - rewrite (needs_quoting_wraps txt H).
    apply needs_quoting_wraps, pre_block_must_quote.
  - now rewrite !(needs_quoting_keeps txt H).
Qed.

Lemma needs_quoting_twice_witness :
  needs_quoting (needs_quoting "a_b") = "<pre><pre>a_b</pre></pre>".
Proof.
  apply (proj1 (needs_quoting_twice "a_b")).
  left. exists "_"%char. split; simpl; tauto.
Defined.

(** ** The matcher *)

Lemma take_drop_run (p : ascii -> bool) (s : string) :
  take_run p s +++ drop_run p s = s.
Proof.
  induction s as [|c s IH]; simpl; [reflexivity|].
  destruct (p c); simpl; [now rewrite IH | reflexivity].
Qed.

Lemma all_chars_take_run (p : ascii -> bool) (s : string) :
  all_chars p (take_run p s) = true.
Proof.
  induction s as [|c s IH]; simpl; [reflexivity|].
  destruct (p c) eqn:Hc; simpl; [now rewrite Hc, IH | reflexivity].
Qed.

Lemma all_chars_append (p : ascii -> bool) (a b : string) :
  all_chars p (a +++ b) = all_chars p a && all_chars p b.
Proof.
  induction a as [|c a IH]; simpl; [reflexivity|].
  now rewrite IH, andb_assoc.
Qed.

Lemma all_chars_weaken (p q : ascii -> bool) (s : string) :
  (forall c, p c = true -> q c = true) ->
  all_chars p s = true -> all_chars q s = true.
Proof.
  intros Hpq. induction s as [|c s IH]; simpl; [reflexivity|].
  intros H. apply andb_true_iff in H as [H1 H2].
  now rewrite (Hpq c H1), IH.
Qed.

Lemma drop_run_append (p : ascii -> bool) (a b : string) :
  all_chars p a = true -> drop_run p (a +++ b) = drop_run p b.
Proof.
  induction a as [|c a IH]; simpl; [reflexivity|].
  intros H. apply andb_true_iff in H as [H1 H2].
  rewrite H1. now apply IH.
Qed.

Lemma drop_run_stop (p : ascii -> bool) (c : ascii) (s : string) :
  p c = false -> drop_run p (String c s) = String c s.
Proof. intros H. simpl. now rewrite H. Qed.

Lemma drop_run_head (p : ascii -> bool) (s : string) :
  drop_run p s = EmptyString \/
  exists c s', drop_run p s = String c s' /\ p c = false.
Proof.
  induction s as [|c s IH]; simpl; [now left|].
  destruct (p c) eqn:Hc; [exact IH|].
  right. now exists c, s.
Qed.

Lemma take_consumed (a b : string) :
  take (String.length (a +++ b) - String.length b) (a +++ b) = a.
Proof.
  rewrite length_append.
  replace (String.length a + String.length b - String.length b)%nat
    with (String.length a) by lia.
  induction a as [|c a IH]; simpl.
  - destruct b; reflexivity.
  - now rewrite IH.
Qed.

Lemma strip_prefix_append (p s : string) : strip_prefix p (p +++ s) = Some s.
Proof.
  induction p as [|c p IH]; simpl; [reflexivity|].
  now rewrite Ascii.eqb_refl.
Qed.

Lemma strip_prefix_inv (p s r : string) :
  strip_prefix p s = Some r -> s = p +++ r.
Proof.
  revert s. induction p as [|c p IH]; intros s H; simpl in *.
  - congruence.
  - destruct s as [|d s]; [discriminate|].
    destruct (Ascii.eqb_spec c d) as [->|]; [|discriminate].
    now rewrite (IH s H).
Qed.

Section StarK.
Context {A : Type}.
Variable p : ascii -> bool.
Variable k : string -> option A.

(** The longest run is tried first. *)
Lemma star_k_greedy (s : string) (r : A) :
  k (drop_run p s) = Some r -> star_k p s k = Some r.
Proof.
  induction s as [|c s IH]; simpl; [tauto|].
  destruct (p c); [|tauto].
  intros H. now rewrite (IH H).
Qed.

(** A result comes from the continuation at the end of some run. *)
Lemma star_k_inv (s : string) (r : A) :
  star_k p s k = Some r ->
  exists pre s', s = pre +++ s' /\ all_chars p pre = true /\ k s' = Some r.
Proof.
  induction s as [|c s IH]; simpl.
  - intros H. now exists EmptyString, EmptyString.
  - destruct (p c) eqn:Hc.
    + destruct (star_k p s k) as [r'|] eqn:Hs.
      * intros [= ->]. destruct (IH eq_refl) as (pre & s' & -> & Hall & Hk).
        exists (String c pre), s'. simpl. now rewrite Hc, Hall.
      * intros H. now exists EmptyString, (String c s).
    + intros H. now exists EmptyString, (String c s).
Qed.

(** Failure means the continuation fails at the end of every run. *)
Lemma star_k_none (s : string) :
  star_k p s k = None ->
  forall pre s', s = pre +++ s' -> all_chars p pre = true -> k s' = None.
Proof.
  induction s as [|c s IH]; simpl.
  - intros H pre s' Heq _. destruct pre; [|discriminate].
    simpl in Heq. now subst.
  - destruct (p c) eqn:Hc.
    + destruct (star_k p s k) eqn:Hs; [discriminate|].
      intros H pre s' Heq Hall. destruct pre as [|d pre]; simpl in *.
      * now subst.
      * injection Heq as <- ->. apply andb_true_iff in Hall as [_ Hall].
        now apply (IH eq_refl pre s').
    + intros H pre s' Heq Hall. destruct pre as [|d pre]; simpl in *.
      * now subst.
      * injection Heq as <- ->. rewrite Hc in Hall. discriminate.
Qed.

(** When every run end gives either nothing or [r], and one gives
    [r], so does the repetition. *)
Lemma star_k_uniform (s : string) (r : A) :
  (forall pre s', s = pre +++ s' -> all_chars p pre = true ->
                  k s' = None \/ k s' = Some r) ->
  (exists pre s', s = pre +++ s' /\ all_chars p pre = true /\ k s' = Some r) ->
  star_k p s k = Some r.
Proof.
  intros Hall (pre & s' & Heq & Hp & Hk).
  destruct (star_k p s k) as [r'|] eqn:Hs.
  - destruct (star_k_inv s r' Hs) as (pre2 & s2 & Heq2 & Hp2 & Hk2).
    destruct (Hall pre2 s2 Heq2 Hp2) as [Hn|Hr]; congruence.
  - rewrite (star_k_none s Hs pre s' Heq Hp) in Hk. discriminate.
Qed.
End StarK.

(** The equations of [run], one per operator. *)
Section RunEquations.
Context {A : Type}.
Variable k : string -> option string -> option A.

Lemma run_seq r1 r2 s g :
  run (Seq r1 r2) s g k = run r1 s g (fun s' g' => run r2 s' g' k).
Proof. reflexivity. Qed.

Lemma run_lit l s g :
  run (Lit l) s g k =
  match strip_prefix l s with Some s' => k s' g | None => None end.
Proof. reflexivity. Qed.

Lemma run_cls p s g :
  run (Cls p) s g k =
  match s with
  | String c s' => if p c then k s' g else None
  | EmptyString => None
  end.
Proof. reflexivity. Qed.

Lemma run_star p s g : run (Star p) s g k = star_k p s (fun s' => k s' g).
Proof. reflexivity. Qed.

Lemma run_plus p s g :
  run (Plus p) s g k =
  match s with
  | String c s' => if p c then star_k p s' (fun s'' => k s'' g) else None
  | EmptyString => None
  end.
Proof. reflexivity. Qed.

Lemma run_plus_cons p c s g :
  run (Plus p) (String c s) g k =
  if p c then star_k p s (fun s'' => k s'' g) else None.
Proof. reflexivity. Qed.

Lemma run_opt r s g :
  run (Opt r) s g k =
  match run r s g k with Some x => Some x | None => k s g end.
Proof. reflexivity. Qed.

Lemma run_grp r s g :
  run (Grp r) s g k =
  run r s g (fun s' _ => k s' (Some (take (String.length s - String.length s') s))).
Proof. reflexivity. Qed.

Lemma run_eol s g :
  run Eol s g k =
  match s with
  | EmptyString => k s g
  | String c _ => if Ascii.eqb c LF then k s g else None
  end.
Proof. reflexivity. Qed.
End RunEquations.

(** [.*$] under re.M always matches, up to the end of the line. *)
Lemma run_rest_of_line {A} (k : string -> option string -> option A) s g r :
  k (drop_run dot s) g = Some r ->
  run (Seq (Star dot) Eol) s g k = Some r.
Proof.
  intros Hk. rewrite run_seq, run_star.
  apply star_k_greedy. rewrite run_eol.
  destruct (drop_run_head dot s) as [He | (c & s' & He & Hc)].
  - rewrite He in *. exact Hk.
  - rewrite He in *. unfold dot in Hc. apply negb_false_iff in Hc.
    now rewrite Hc.
Qed.

(** ** Announcements *)

Lemma digit_is_dot (c : ascii) : digit c = true -> dot c = true.
Proof.
  unfold digit, is_digit, dot. intros H.
  destruct (Ascii.eqb_spec c LF) as [->|]; [discriminate H | reflexivity].
Qed.

Lemma parse_announced (txt ds rest : string) :
  announces txt ds rest ->
  Attachment.parse_comment_text txt = VInt (int_of_digits ds).
Proof.
  intros (-> & Hne & Hdig).
  unfold Attachment.parse_comment_text, re_match, Attachment.announcement_regex.
  rewrite run_seq, run_lit, strip_prefix_append.
  destruct ds as [|d ds]; [congruence|].
  simpl in Hdig. apply andb_true_iff in Hdig as [Hd Hds].
  change (String d ds +++ ")" +++ rest) with (String d (ds +++ ")" +++ rest)).
  rewrite run_seq, run_grp, run_plus_cons, Hd.
  erewrite star_k_greedy; cycle 1.
  { rewrite (drop_run_append digit ds (")" +++ rest) Hds).
    change (")" +++ rest) with (String ")" rest).
    rewrite drop_run_stop by reflexivity.
    rewrite run_seq, run_lit. simpl strip_prefix.
    apply run_rest_of_line. reflexivity. }
  cbv beta iota.
  change (String d (ds +++ String ")" rest)) with (String d ds +++ String ")" rest).
  now rewrite take_consumed.
Qed.

Lemma parse_result (txt : string) :
  Attachment.parse_comment_text txt = VBool false \/
  exists ds rest, announces txt ds rest /\
                  Attachment.parse_comment_text txt = VInt (int_of_digits ds).
Proof.
  destruct (Attachment.parse_comment_text txt) eqn:Hp; try (left; reflexivity).
  - exfalso. unfold Attachment.parse_comment_text in Hp.
    destruct (re_match _ txt) as [[? [?|]]|]; discriminate.
  - unfold Attachment.parse_comment_text in Hp.
    destruct (re_match _ txt) as [[? [?|]]|]; try discriminate;
      injection Hp as <-; now left.
  - right.
    assert (Hex : exists ds rest, announces txt ds rest).
    { unfold Attachment.parse_comment_text, re_match,
        Attachment.announcement_regex in Hp.
      rewrite run_seq, run_lit in Hp.
      destruct (strip_prefix _ txt) as [s1|] eqn:Hpre; [|discriminate].
      apply strip_prefix_inv in Hpre. subst txt.
      destruct s1 as [|d s1]; [discriminate|].
      rewrite run_seq, run_grp, run_plus_cons in Hp.
      destruct (digit d) eqn:Hd; [|discriminate].
      match type of Hp with
      | match star_k ?p ?s ?k with _ => _ end = _ =>
          destruct (star_k p s k) as [[rest' g']|] eqn:Hs; [|discriminate]
      end.
      apply star_k_inv in Hs as (pre & s' & -> & Hall & Hk).
      rewrite run_seq, run_lit in Hk.
      destruct (strip_prefix ")" s') as [s2|] eqn:Hclose; [|discriminate].
      apply strip_prefix_inv in Hclose. subst s'.
      exists (String d pre), s2. repeat split.
      - discriminate.
      - simpl. now rewrite Hd, Hall. }
    destruct Hex as (ds & rest & Hann).
    exists ds, rest. split; [assumption|].
    rewrite <- Hp. exact (parse_announced txt ds rest Hann).
  - exfalso. unfold Attachment.parse_comment_text in Hp.
    destruct (re_match _ txt) as [[? [?|]]|]; discriminate.
Qed.

Lemma stripped_prefix_split (s : string) :
  s = stripped_prefix s +++ strip_two_lines s.
Proof.
  unfold stripped_prefix, strip_two_lines, drop_line_and_breaks.
  rewrite !append_assoc.
  now rewrite !take_drop_run.
Qed.

Lemma run_line_and_breaks {A} (k : string -> option string -> option A) s g r :
  k (drop_line_and_breaks s) g = Some r ->
  run Issue.line_and_breaks s g k = Some r.
Proof.
  intros Hk. unfold Issue.line_and_breaks.
  rewrite run_seq, run_star. apply star_k_greedy.
  rewrite run_star. now apply star_k_greedy.
Qed.

Lemma run_boilerplate_tail s g :
  run (Seq Issue.line_and_breaks (Opt Issue.line_and_breaks)) s g
      (fun rest _ => Some rest) = Some (strip_two_lines s).
Proof.
  rewrite run_seq. apply run_line_and_breaks.
  rewrite run_opt. now rewrite (run_line_and_breaks _ _ _ (strip_two_lines s)).
Qed.

Lemma strip_two_lines_same_line (a b : string) :
  all_chars dot a = true -> strip_two_lines (a +++ b) = strip_two_lines b.
Proof.
  intros H. unfold strip_two_lines, drop_line_and_breaks at 2 4.
  now rewrite drop_run_append.
Qed.

Lemma re_sub1_at_head (r : regex) (s rest : string) :
  match_at false r s = Some rest -> re_sub1 r s = rest.
Proof. intros H. destruct s; simpl; now rewrite H. Qed.

(** On an announcement [re.sub] finds its match at offset 0 and the
    match covers exactly the first two lines. *)
Lemma strip_announcement (txt ds rest : string) :
  announces txt ds rest ->
  re_sub1 Issue.boilerplate_regex txt = strip_two_lines txt.
Proof.
  intros (-> & Hne & Hdig).
  assert (Hm : match_at false Issue.boilerplate_regex
                        ("Created an attachment (id=" +++ ds +++ ")" +++ rest)
               = Some (strip_two_lines
                         ("Created an attachment (id=" +++ ds +++ ")" +++ rest))).
  { unfold match_at. cbn [andb].
    unfold Issue.boilerplate_regex.
    change ("Created an attachment (id=" +++ ds +++ ")" +++ rest)
      with ("Created" +++ " an attachment " +++ "(id=" +++ ds +++ ")" +++ rest).
    rewrite run_seq, run_lit, strip_prefix_append.
    rewrite (strip_two_lines_same_line "Created") by reflexivity.
    rewrite run_seq, run_star.
    apply star_k_uniform.
    - (* every way of matching gives the same remainder *)
      intros pre s' Heq Hpre.
      rewrite run_seq, run_lit.
      destruct (strip_prefix "(id=" s') as [s2|] eqn:H2; [|now left].
      apply strip_prefix_inv in H2. subst s'.
      destruct s2 as [|d s2]; [now left|].
      rewrite run_seq, run_plus_cons.
      destruct (digit d) eqn:Hd; [|now left].
      match goal with
      | |- star_k ?p ?s ?k = None \/ _ =>
          destruct (star_k p s k) as [r|] eqn:Hs; [|now left]
      end.
      right. f_equal.
      apply star_k_inv in Hs as (pre2 & s3 & -> & Hall2 & Hk).
      rewrite run_seq, run_lit in Hk.
      destruct (strip_prefix ")" s3) as [s4|] eqn:H4; [|discriminate].
      apply strip_prefix_inv in H4. subst s3.
      rewrite run_boilerplate_tail in Hk. injection Hk as <-.
      rewrite Heq.
      rewrite (strip_two_lines_same_line pre) by assumption.
      rewrite (strip_two_lines_same_line "(id=") by reflexivity.
      replace (String d (pre2 +++ ")" +++ s4))
        with ((String d pre2 +++ ")") +++ s4)
        by (simpl; now rewrite append_assoc).
      rewrite strip_two_lines_same_line; [reflexivity|].
      rewrite all_chars_append. simpl.
      rewrite (digit_is_dot d Hd), andb_true_r. simpl.
      apply (all_chars_weaken digit dot); [apply digit_is_dot | assumption].
    - (* and the announcement itself is one way *)
      exists " an attachment ", ("(id=" +++ ds +++ ")" +++ rest).
      split; [reflexivity|]. split; [reflexivity|].
      rewrite run_seq, run_lit, strip_prefix_append.
      destruct ds as [|d ds]; [congruence|].
      simpl in Hdig. apply andb_true_iff in Hdig as [Hd Hds].
      change (String d ds +++ ")" +++ rest) with (String d (ds +++ ")" +++ rest)).
      rewrite run_seq, run_plus_cons, Hd.
      apply star_k_greedy.
      rewrite (drop_run_append digit ds (")" +++ rest) Hds).
      change (")" +++ rest) with (String ")" rest).
      rewrite drop_run_stop by reflexivity.
      rewrite run_seq, run_lit. simpl strip_prefix. cbv iota beta.
      rewrite run_boilerplate_tail. f_equal.
      rewrite (strip_two_lines_same_line " an attachment ") by reflexivity.
      rewrite (strip_two_lines_same_line "(id=") by reflexivity.
      replace (String d (ds +++ String ")" rest))
        with ((String d ds +++ ")") +++ rest)
        by (simpl; now rewrite append_assoc).
      rewrite strip_two_lines_same_line; [reflexivity|].
      rewrite all_chars_append. simpl.
      rewrite (digit_is_dot d Hd), andb_true_r. simpl.
      apply (all_chars_weaken digit dot); [apply digit_is_dot | assumption]. }
  now apply re_sub1_at_head.
Qed.

(** ** Reconciling the comments *)

Lemma del_at_middle {A} (pre : list A) (x : A) (post : list A) :
  del_at (List.length pre) (pre ++ x :: post) = OK (pre ++ post).
Proof.
  induction pre as [|y pre IH]; simpl; [reflexivity|].
  now rewrite IH.
Qed.

Lemma delete_all_app (a b : list nat) (l : list comment_fields) :
  Issue.delete_all (a ++ b) l =
  match Issue.delete_all a l with
  | OK l' => Issue.delete_all b l'
  | Raise e => Raise e
  end.
Proof.
  revert l. induction a as [|i a IH]; intros l; simpl; [reflexivity|].
  destruct (del_at i l); [apply IH | reflexivity].
Qed.

(** The two passes, marking and then deleting from the back, leave what
    the single pass leaves: deleting in reverse never shifts an index
    that is still to be deleted. *)
Lemma scan_then_delete reporter_name atts obsolete (l : list comment_fields) :
  forall (pre : list comment_fields),
    match Issue.scan_comments reporter_name atts obsolete (List.length pre) l with
    | Raise e => reconciled reporter_name atts obsolete l = Raise e
    | OK (l', to_delete) =>
        exists kept,
        reconciled reporter_name atts obsolete l = OK kept /\
        Issue.delete_marked to_delete (pre ++ l') = OK (pre ++ kept)
    end.
Proof.
  induction l as [|c l IH]; intros pre; simpl.
  - exists []. split; reflexivity.
  - destruct (Issue.scan_comment reporter_name atts obsolete c)
      as [[c' del]|e]; [|reflexivity].
    specialize (IH (pre ++ [c'])).
    rewrite length_app in IH. simpl in IH.
    rewrite Nat.add_1_r in IH.
    destruct (Issue.scan_comments reporter_name atts obsolete
                                  (S (List.length pre)) l)
      as [[l' td]|e]; [|now rewrite IH].
    destruct IH as (kept & -> & Hdel).
    rewrite <- app_assoc in Hdel. simpl in Hdel.
    destruct del.
    + exists kept. split; [reflexivity|].
      unfold Issue.delete_marked in *. simpl rev.
      rewrite delete_all_app, Hdel. simpl.
      rewrite <- app_assoc. simpl.
      now rewrite del_at_middle.
    + exists (c' :: kept). split; [reflexivity|].
      rewrite Hdel. now rewrite <- app_assoc.
Qed.

Lemma reconcile_comments_one_pass reporter_name atts obsolete l :
  Issue.reconcile_comments reporter_name atts obsolete l =
  reconciled reporter_name atts obsolete l.
Proof.
  unfold Issue.reconcile_comments.
  pose proof (scan_then_delete reporter_name atts obsolete l []) as H.
  simpl in H.
  destruct (Issue.scan_comments reporter_name atts obsolete 0 l)
    as [[l' td]|e]; [|now rewrite H].
  destruct H as (kept & -> & Hdel). exact Hdel.
Qed.

Lemma reconciled_app reporter_name atts obsolete (a b : list comment_fields) :
  reconciled reporter_name atts obsolete (a ++ b) =
  match reconciled reporter_name atts obsolete a with
  | Raise e => Raise e
  | OK a' =>
      match reconciled reporter_name atts obsolete b with
      | Raise e => Raise e
      | OK b' => OK (a' ++ b')
      end
  end.
Proof.
  induction a as [|c a IH]; simpl.
  - destruct (reconciled reporter_name atts obsolete b); reflexivity.
  - destruct (Issue.scan_comment reporter_name atts obsolete c)
      as [[c' del]|e]; [|reflexivity].
    rewrite IH.
    destruct (reconciled reporter_name atts obsolete a); [|reflexivity].
    destruct (reconciled reporter_name atts obsolete b); [|reflexivity].
    destruct del; reflexivity.
Qed.

(** The scan raises on a comment exactly when the comment is
    unresolved, and then the exception quotes the id and the text. *)
Lemma scan_comment_raises reporter_name atts obsolete c :
  unresolved atts obsolete c ->
  Issue.scan_comment reporter_name atts obsolete c =
  Raise (Issue.missing_attachment
           (Attachment.parse_comment_text (thetext c)) (thetext c)).
Proof.
  intros [Ht Hr]. unfold Issue.scan_comment, resolves in *.
  rewrite Ht, Hr. now destruct (String.eqb (who c) reporter_name).
Qed.

Lemma scan_comment_ok reporter_name atts obsolete c :
  ~ unresolved atts obsolete c ->
  exists c' del, Issue.scan_comment reporter_name atts obsolete c = OK (c', del).
Proof.
  intros Hn. unfold Issue.scan_comment, unresolved, resolves in *.
  destruct (truthy (Attachment.parse_comment_text (thetext c))) eqn:Ht;
    [|eauto].
  destruct (dict_mem Z.eqb _ atts || int_in _ obsolete) eqn:Hr.
  - destruct (String.eqb (who c) reporter_name); eauto.
  - exfalso. apply Hn. now split.
Qed.

Lemma unresolved_dec atts obsolete c :
  unresolved atts obsolete c \/ ~ unresolved atts obsolete c.
Proof.
  unfold unresolved.
  destruct (truthy (Attachment.parse_comment_text (thetext c)));
    destruct (resolves atts obsolete
                       (as_int (Attachment.parse_comment_text (thetext c))));
    intuition congruence.
Qed.

(** Reconciliation raises exactly when some comment of the scanned
    stream is unresolved, and it raises for the first one. *)
Lemma reconcile_raises_iff reporter_name atts obsolete l :
  (exists e, Issue.reconcile_comments reporter_name atts obsolete l = Raise e)
  <-> Exists (unresolved atts obsolete) l.
Proof.
  rewrite reconcile_comments_one_pass.
  induction l as [|c l IH]; simpl.
  - split; [intros [e H]; discriminate | intros H; inversion H].
  - destruct (unresolved_dec atts obsolete c) as [Hu|Hn].
    + rewrite (scan_comment_raises reporter_name _ _ _ Hu).
      split; [intros _; now left | intros _; eauto].
    + destruct (scan_comment_ok reporter_name _ _ _ Hn) as (c' & del & ->).
      split.
      * intros [e He]. right. apply IH.
        destruct (reconciled reporter_name atts obsolete l); [discriminate|eauto].
      * intros H. inversion H; subst; [contradiction|].
        apply IH in H1 as [e He]. rewrite He. eauto.
Qed.

Lemma reconcile_first_unresolved reporter_name atts obsolete pre c post :
  Forall (fun x => ~ unresolved atts obsolete x) pre ->
  unresolved atts obsolete c ->
  Issue.reconcile_comments reporter_name atts obsolete (pre ++ c :: post) =
  Raise (Issue.missing_attachment
           (Attachment.parse_comment_text (thetext c)) (thetext c)).
Proof.
  intros Hpre Hu. rewrite reconcile_comments_one_pass, reconciled_app.
  assert (Hok : exists p, reconciled reporter_name atts obsolete pre = OK p).
  { induction Hpre as [|x pre Hx _ IH]; simpl; [eauto|].
    destruct (scan_comment_ok reporter_name _ _ _ Hx) as (c' & del & ->).
    destruct IH as [p ->]. eauto. }
  destruct Hok as [p ->]. simpl.
  now rewrite (scan_comment_raises reporter_name _ _ _ Hu).
Qed.

Lemma announced_truthy (txt : string) (n : Z) :
  Attachment.parse_comment_text txt = VInt n -> n <> 0%Z ->
  truthy (Attachment.parse_comment_text txt) = true /\
  as_int (Attachment.parse_comment_text txt) = n.
Proof.
  intros -> Hn. simpl. split; [|reflexivity].
  apply negb_true_iff. now apply Z.eqb_neq.
Qed.

Lemma strip_parsed (txt : string) (n : Z) :
  Attachment.parse_comment_text txt = VInt n ->
  re_sub1 Issue.boilerplate_regex txt = strip_two_lines txt.
Proof.
  intros Hp. destruct (parse_result txt) as [Hf | (ds & rest & Hann & _)].
  - congruence.
  - exact (strip_announcement txt ds rest Hann).
Qed.

Lemma reconciled_insert reporter_name atts obsolete pre c post pre' post' c' del :
  reconciled reporter_name atts obsolete pre = OK pre' ->
  reconciled reporter_name atts obsolete post = OK post' ->
  Issue.scan_comment reporter_name atts obsolete c = OK (c', del) ->
  Issue.reconcile_comments reporter_name atts obsolete (pre ++ c :: post) =
  OK (pre' ++ (if del then post' else c' :: post')).
Proof.
  intros Hpre Hpost Hc.
  rewrite reconcile_comments_one_pass, reconciled_app, Hpre.
  simpl. now rewrite Hc, Hpost.
Qed.

(** C1 at the input where the code departs from it.  The comment of
    bob matches the announcement pattern with id 0; bug 1234 has no
    attachment, so 0 is neither in the registry nor obsolete; yet
    [create_description] raises nothing and keeps the comment: the test
    of line 153 takes the id 0 for the value [False]. *)
Theorem zero_id_announcement_is_not_checked :
  let c := demo_comment "bob" "Created an attachment (id=0)" in
  let fields := demo_fields "NEW" [demo_comment "alice" "Steps"; c] [] in
  re_match Attachment.announcement_regex (thetext c) = Some (EmptyString, Some "0")
  /\ match fst (Issue.create_description (demo_env true) fields []) with
     | OK (fields', _, atts) => atts = [] /\ long_desc fields' = [c]
     | Raise _ => False
     end.
Proof. vm_compute. repeat split. Qed.

(** C10. A comment whose text starts with the announcement words and an
    id of value 0 gets the id 0 from [parse_comment_text]; 0 is as false
    as the no-match result [False], so whatever the registry and the
    obsolete list hold the scan neither raises nor rewrites nor marks
    the comment, and the reconciled stream keeps it as it is. *)
Theorem zero_id_is_no_announcement
        (reporter_name : string) (atts : list (Z * Attachment.t))
        (obsolete : list Z) (c : comment_fields) (ds rest : string) :
  announces (thetext c) ds rest ->
  int_of_digits ds = 0%Z ->
  Attachment.parse_comment_text (thetext c) = VInt 0 /\
  truthy (Attachment.parse_comment_text (thetext c)) = truthy (VBool false) /\
  Issue.scan_comment reporter_name atts obsolete c = OK (c, false) /\
  forall pre post pre' post',
    Issue.reconcile_comments reporter_name atts obsolete pre = OK pre' ->
    Issue.reconcile_comments reporter_name atts obsolete post = OK post' ->
    Issue.reconcile_comments reporter_name atts obsolete (pre ++ c :: post) =
    OK (pre' ++ c :: post').
Proof.
  intros Hann Hzero.
  assert (Hp : Attachment.parse_comment_text (thetext c) = VInt 0).
  { rewrite (parse_announced _ _ _ Hann). now rewrite Hzero. }
  assert (Hs : Issue.scan_comment reporter_name atts obsolete c = OK (c, false)).
  { unfold Issue.scan_comment. now rewrite Hp. }
  repeat split; try assumption.
  - now rewrite Hp.
  - intros pre post pre' post' Hpre Hpost.
    rewrite reconcile_comments_one_pass in Hpre, Hpost.
    exact (reconciled_insert _ _ _ _ _ _ _ _ _ _ Hpre Hpost Hs).
Qed.

Lemma zero_id_is_no_announcement_witness :
  Issue.scan_comment "alice" [] []
    (demo_comment "bob" "Created an attachment (id=0) see the log") =
  OK (demo_comment "bob" "Created an attachment (id=0) see the log", false).
Proof.
  refine (proj1 (proj2 (proj2
    (zero_id_is_no_announcement "alice" [] []
       (demo_comment "bob" "Created an attachment (id=0) see the log")
       "0" " see the log" _ _)))).
  - repeat split. discriminate.
  - reflexivity.
Defined.

(** C2, as the specification states it, fails: bob announces the
    active attachment 7 and adds no remark; stripping leaves the empty
    text, the reconciled record still holds the tagged comment, but
    [load_objects] builds no comment for it. *)
Lemma empty_stripped_comment_is_dropped :
  let c := demo_comment "bob" "Created an attachment (id=7)" in
  let fields := demo_fields "NEW" [demo_comment "alice" "Steps"; c]
                            [demo_attachment 7 "a.png" false] in
  match fst (IssueThread.load_objects (demo_env true) fields []) with
  | OK (thread, fields') =>
      long_desc fields' = [Issue.tag_comment c EmptyString 7] /\
      IssueThread.comments thread = []
  | Raise _ => False
  end.
Proof. vm_compute. split; reflexivity. Qed.

(** A tag that points to an obsolete attachment makes the construction
    of the comment fail: the registry that [Comment] reads holds active
    attachments only. *)
Lemma obsolete_tag_breaks_comment :
  let c := demo_comment "bob" ("Created an attachment (id=7)" +++ nl +++
                               "old log" +++ nl +++ "please ignore") in
  let fields := demo_fields "NEW" [demo_comment "alice" "Steps"; c]
                            [demo_attachment 7 "a.png" true] in
  fst (IssueThread.load_objects (demo_env true) fields []) = Raise (KeyError "7").
Proof. vm_compute. reflexivity. Qed.

(** C2, amended.  For a comment whose text is an announcement with an
    id other than 0, written by someone other than the reporter, with an
    id that is in the registry or obsolete: the scan replaces the text
    by what follows its first two lines (the announcement line, the next
    line, and the line breaks after each), tags the comment with the id
    and does not mark it, so the reconciled stream keeps it in place,
    also with an empty text.  [load_objects] then skips a comment whose
    text is empty, and builds a comment from any other; for an id of the
    registry the body of that comment is the optional author line, the
    attachment's markdown, a line break and the sanitized text. *)
Theorem announcement_by_other_user
        (E : Env) (reporter_name : string) (atts : list (Z * Attachment.t))
        (obsolete : list Z) (c : comment_fields) (n : Z) :
  Attachment.parse_comment_text (thetext c) = VInt n ->
  n <> 0%Z ->
  who c <> reporter_name ->
  resolves atts obsolete n = true ->
  let c' := Issue.tag_comment c (strip_two_lines (thetext c)) n in
  Issue.scan_comment reporter_name atts obsolete c = OK (c', false) /\
  thetext c = stripped_prefix (thetext c) +++ thetext c' /\
  (forall pre post pre' post',
      Issue.reconcile_comments reporter_name atts obsolete pre = OK pre' ->
      Issue.reconcile_comments reporter_name atts obsolete post = OK post' ->
      Issue.reconcile_comments reporter_name atts obsolete (pre ++ c :: post) =
      OK (pre' ++ c' :: post')) /\
  (forall rest, thetext c' = EmptyString ->
      IssueThread.load_comments E atts (c' :: rest) =
      IssueThread.load_comments E atts rest) /\
  (forall rest, thetext c' <> EmptyString ->
      IssueThread.load_comments E atts (c' :: rest) =
      bind (Comment.__init__ E c' atts)
           (fun x => bind (IssueThread.load_comments E atts rest)
                          (fun cs => ret (x :: cs)))) /\
  (forall mapped user created a log,
      dict_get String.eqb (who c) (bugzilla_users (conf E)) = Some mapped ->
      dict_get String.eqb mapped (gitlab_users (conf E)) = Some user ->
      dateparser_isoformat E (bug_when c) = Some created ->
      dict_get Z.eqb n atts = Some a ->
      exists x,
        Comment.__init__ E c' atts log = (OK x, log) /\
        Comment.body x =
        (if String.eqb mapped (gitlab_misc_user (conf E))
         then "By " +++ who c +++ nl +++ nl else EmptyString) +++
        Attachment.markdown a +++ nl +++ needs_quoting (thetext c')).
Proof.
  intros Hp Hn Hwho Hres c'.
  destruct (announced_truthy _ _ Hp Hn) as [Ht Hi].
  assert (Hs : Issue.scan_comment reporter_name atts obsolete c = OK (c', false)).
  { unfold Issue.scan_comment. rewrite Ht, Hi.
    apply String.eqb_neq in Hwho. rewrite Hwho.
    unfold resolves in Hres. rewrite Hres.
    now rewrite (strip_parsed _ _ Hp). }
  split; [exact Hs|]. split; [apply stripped_prefix_split|].
  split; [|split; [|split]].
  - intros pre post pre' post' Hpre Hpost.
    rewrite reconcile_comments_one_pass in Hpre, Hpost.
    exact (reconciled_insert _ _ _ _ _ _ _ _ _ _ Hpre Hpost Hs).
  - intros rest He. simpl. simpl in He. now rewrite He.
  - intros rest Hne. simpl. simpl in Hne.
    destruct (strip_two_lines (thetext c)); [congruence | reflexivity].
  - intros mapped user created a log Hm Hu Hd Ha.
    unfold Comment.__init__, validate_user, dict_mem.
    simpl who. simpl bug_when. simpl c_attachid.
    apply Z.eqb_neq in Hn.
    unfold bind, lookup, parse_isoformat, ret.
    rewrite Hm, Hu, Hd, Hn, Ha. simpl.
    eexists. split; [reflexivity|]. simpl.
    now rewrite !append_assoc.
Qed.

Lemma announcement_by_other_user_witness :
  Issue.scan_comment "alice"
    [(7%Z, {| Attachment.id := 7; Attachment.filename := "a.png";
              Attachment.headers := []; Attachment.markdown := "[attachment](a.png)" |})]
    []
    (demo_comment "bob" ("Created an attachment (id=7)" +++ nl +++ "screenshot"
                         +++ nl +++ nl +++ "the dialog is cut off")) =
  OK ({| who := "bob"; bug_when := "2019-03-01 10:00:00";
         thetext := "the dialog is cut off"; c_attachid := Some 7%Z |}, false).
Proof.
  refine (proj1
    (announcement_by_other_user (demo_env true) "alice" _ []
       (demo_comment "bob" ("Created an attachment (id=7)" +++ nl +++ "screenshot"
                            +++ nl +++ nl +++ "the dialog is cut off"))
       7 _ _ _ _)).
  - reflexivity.
  - discriminate.
  - discriminate.
  - reflexivity.
Defined.

(** ** The attachment registry *)

Lemma dict_mem_In {V} (k : Z) (d : list (Z * V)) :
  dict_mem Z.eqb k d = true <-> In k (dict_keys d).
Proof.
  unfold dict_mem. induction d as [|[k' v] d IH]; simpl.
  - split; [discriminate | tauto].
  - destruct (Z.eqb_spec k k') as [->|Hne].
    + split; auto.
    + rewrite IH. split; [auto | intros [H|H]; [congruence | assumption]].
Qed.

Lemma dict_keys_set {V} (k : Z) (v : V) (d : list (Z * V)) :
  dict_keys (dict_set Z.eqb k v d) =
  if dict_mem Z.eqb k d then dict_keys d else dict_keys d ++ [k].
Proof.
  unfold dict_mem. induction d as [|[k' v'] d IH]; simpl; [reflexivity|].
  destruct (Z.eqb k k'); simpl; [reflexivity|].
  rewrite IH. now destruct (dict_get Z.eqb k d).
Qed.

Lemma dict_keys_set_In {V} (k k' : Z) (v : V) (d : list (Z * V)) :
  In k' (dict_keys (dict_set Z.eqb k v d)) <-> k' = k \/ In k' (dict_keys d).
Proof.
  rewrite dict_keys_set. destruct (dict_mem Z.eqb k d) eqn:Hm.
  - apply dict_mem_In in Hm. split; [auto | intros [->|H]; assumption].
  - rewrite in_app_iff. simpl. intuition.
Qed.

Lemma dict_keys_set_NoDup {V} (k : Z) (v : V) (d : list (Z * V)) :
  NoDup (dict_keys d) -> NoDup (dict_keys (dict_set Z.eqb k v d)).
Proof.
  intros Hnd. rewrite dict_keys_set. destruct (dict_mem Z.eqb k d) eqn:Hm.
  - assumption.
  - apply NoDup_app; [assumption | repeat constructor; auto |].
    intros x Hx [<-|[]]. apply dict_mem_In in Hx. congruence.
Qed.



(** What the constructor of [Attachment] does in a run without
    exception. *)
Lemma attachment_init_inv E n fname log att log' :
  Attachment.__init__ E n fname log = (OK att, log') ->
  Attachment.id att = n /\ Attachment.filename att = fname.
Proof.
  unfold Attachment.__init__, bind.
  destruct (Attachment.__upload_attachment E n fname _ log) as [[md|e] l1];
    [|discriminate].
  unfold ret. intros [= <- _]. split; reflexivity.
Qed.

Lemma register_inv E st a log st' log' :
  Issue.register E st a log = (OK st', log') ->
  if isobsolete a then
    Issue.reg_attachments st' = Issue.reg_attachments st /\
    Issue.attachment_files st' = Issue.attachment_files st /\
    Issue.obsolete_attachments st' = Issue.obsolete_attachments st ++ [attachid a]
  else
    exists att,
      Attachment.id att = attachid a /\
      Attachment.filename att =
        fst (Issue.dedup_filename (filename a) (Issue.attachment_files st)) /\
      Issue.reg_attachments st' =
        dict_set Z.eqb (attachid a) att (Issue.reg_attachments st) /\
      Issue.attachment_files st' =
        snd (Issue.dedup_filename (filename a) (Issue.attachment_files st)) /\
      Issue.obsolete_attachments st' = Issue.obsolete_attachments st.
Proof.
  unfold Issue.register. destruct (isobsolete a); simpl.
  - unfold ret. intros [= <- _]. simpl. repeat split.
  - destruct (Issue.dedup_filename (filename a) (Issue.attachment_files st))
      as [fname files].
    unfold bind.
    destruct (Attachment.__init__ E (attachid a) fname log) as [[att|e] l1] eqn:Hi;
      [|discriminate].
    unfold ret. intros [= <- _]. simpl.
    apply attachment_init_inv in Hi as [Hid Hname].
    exists att. repeat split; assumption.
Qed.

Lemma build_registry_inv E l :
  forall st log st' log',
    Issue.build_registry E st l log = (OK st', log') ->
    (forall k, In k (dict_keys (Issue.reg_attachments st')) <->
               In k (dict_keys (Issue.reg_attachments st)) \/ In k (active_ids l)) /\
    Issue.obsolete_attachments st' = Issue.obsolete_attachments st ++ obsolete_ids l /\
    (NoDup (dict_keys (Issue.reg_attachments st)) ->
     NoDup (dict_keys (Issue.reg_attachments st'))).
Proof.
  induction l as [|a l IH]; intros st log st' log'; simpl.
  - unfold ret. intros [= <- _]. unfold active_ids, obsolete_ids. simpl.
    rewrite app_nil_r. repeat split; tauto.
  - unfold bind.
    destruct (Issue.register E st a log) as [[st1|e] l1] eqn:Hr; [|discriminate].
    intros Hb. apply IH in Hb as (Hk & Ho & Hn).
    apply register_inv in Hr.
    unfold active_ids, obsolete_ids in *. simpl.
    destruct (isobsolete a); simpl.
    + destruct Hr as (Hreg & _ & Hobs). rewrite Hreg in *. rewrite Hobs in Ho.
      split; [exact Hk|]. split; [|exact Hn].
      now rewrite Ho, <- app_assoc.
    + destruct Hr as (att & _ & _ & Hreg & _ & Hobs).
      rewrite Hreg in *. rewrite Hobs in Ho.
      split; [|split; [exact Ho|]].
      * intros k. rewrite Hk, dict_keys_set_In. intuition.
      * intros Hnd. now apply Hn, dict_keys_set_NoDup.
Qed.

(** The loop completes whenever the remote end answers every request
    and, outside dry runs, every answer carries the markdown of the
    upload. *)
Lemma attachment_init_total E n fname log :
  (forall lg req, exists resp,
      backend E lg req = Some resp /\
      (dry_run (conf E) = false -> json_markdown resp <> None)) ->
  exists att log', Attachment.__init__ E n fname log = (OK att, log').
Proof.
  intros Hup.
  unfold Attachment.__init__, Attachment.__upload_attachment, bind.
  unfold _perform_request at 1. cbn [network_io req_dry_run].
  destruct (Hup log (download_request E n)) as (resp & Hresp & _).
  unfold download_request in Hresp. rewrite Hresp.
  unfold _perform_request, network_io. cbn [req_dry_run].
  destruct (dry_run (conf E)) eqn:Hdry.
  - unfold ret. now eexists _, _.
  - match goal with
    | |- context [backend E ?lg ?q] =>
        destruct (Hup lg q) as (resp2 & -> & Hmd)
    end.
    unfold lookup, ret.
    destruct (json_markdown resp2); [now eexists _, _ | now contradiction Hmd].
Qed.

Lemma build_registry_total E l :
  (forall lg req, exists resp,
      backend E lg req = Some resp /\
      (dry_run (conf E) = false -> json_markdown resp <> None)) ->
  forall st log, exists st' log',
    Issue.build_registry E st l log = (OK st', log').
Proof.
  intros Hup. induction l as [|a l IH]; intros st log; simpl.
  - unfold ret. now eexists _, _.
  - unfold bind, Issue.register.
    destruct (isobsolete a); simpl.
    + unfold ret. apply IH.
    + destruct (Issue.dedup_filename (filename a) (Issue.attachment_files st))
        as [fname files].
      unfold bind.
      destruct (attachment_init_total E (attachid a) fname log Hup)
        as (att & l1 & ->).
      unfold ret. apply IH.
Qed.

Lemma same_id_same_entry (l : list attachment_fields) (a b : attachment_fields) :
  NoDup (map attachid l) -> In a l -> In b l -> attachid a = attachid b -> a = b.
Proof.
  induction l as [|x l IH]; simpl; [tauto|].
  intros Hnd Ha Hb Heq. inversion Hnd as [|? ? Hnotin Hnd']; subst.
  destruct Ha as [->|Ha], Hb as [->|Hb]; auto.
  - exfalso. apply Hnotin. rewrite Heq. now apply in_map.
  - exfalso. apply Hnotin. rewrite <- Heq. now apply in_map.
Qed.

(** C6. With ids unique in the record, after the registry loop every
    attachment that is not obsolete has its id exactly once among the
    keys of the registry and not in the obsolete list, and every
    obsolete attachment has its id in the obsolete list and not among
    the keys of the registry. *)
Theorem registry_partition
        (E : Env) (l : list attachment_fields) (log : list request)
        (st : Issue.registry) (log' : list request) :
  NoDup (map attachid l) ->
  Issue.build_registry E Issue.empty_registry l log = (OK st, log') ->
  forall a, In a l ->
    (isobsolete a = false ->
     count_occ Z.eq_dec (dict_keys (Issue.reg_attachments st)) (attachid a) = 1%nat /\
     ~ In (attachid a) (Issue.obsolete_attachments st)) /\
    (isobsolete a = true ->
     In (attachid a) (Issue.obsolete_attachments st) /\
     ~ In (attachid a) (dict_keys (Issue.reg_attachments st))).
Proof.
  intros Hnd Hb a Ha.
  apply build_registry_inv in Hb as (Hk & Ho & Hn). simpl in *.
  assert (Hclash : forall b, In b l -> attachid b = attachid a ->
                             isobsolete b = isobsolete a).
  { intros b Hb Heq. now rewrite (same_id_same_entry l b a Hnd Hb Ha Heq). }
  split; intros Hobs.
  - split.
    + apply NoDup_count_occ'; [apply Hn; constructor|].
      apply Hk. right. unfold active_ids. apply in_map, filter_In.
      split; [assumption | now rewrite Hobs].
    + rewrite Ho. unfold obsolete_ids. intros Hin.
      apply in_map_iff in Hin as (b & Heq & Hb).
      apply filter_In in Hb as [Hb Hbo].
      rewrite (Hclash b Hb Heq) in Hbo. congruence.
  - split.
    + rewrite Ho. unfold obsolete_ids. apply in_map, filter_In. now split.
    + intros Hin. apply Hk in Hin as [[]|Hin].
      unfold active_ids in Hin.
      apply in_map_iff in Hin as (b & Heq & Hb).
      apply filter_In in Hb as [Hb Hbo].
      rewrite (Hclash b Hb Heq), Hobs in Hbo. discriminate.
Qed.

Lemma registry_partition_witness :
  exists st log',
    Issue.build_registry (demo_env false) Issue.empty_registry
      [demo_attachment 3 "log.txt" false; demo_attachment 4 "log.txt" true;
       demo_attachment 5 "core" false] [] = (OK st, log') /\
    count_occ Z.eq_dec (dict_keys (Issue.reg_attachments st)) 5%Z = 1%nat /\
    ~ In 5%Z (Issue.obsolete_attachments st).
Proof.
  eexists _, _. split; [reflexivity|].
  refine (proj1
    (registry_partition (demo_env false)
       [demo_attachment 3 "log.txt" false; demo_attachment 4 "log.txt" true;
        demo_attachment 5 "core" false]
       [] _ _ _ eq_refl (demo_attachment 5 "core" false) _) _).
  - simpl. repeat constructor; simpl; intuition discriminate.
  - simpl. tauto.
  - reflexivity.
Defined.

Lemma dict_set_fresh {V} (k : Z) (v : V) (d : list (Z * V)) :
  ~ In k (dict_keys d) -> dict_set Z.eqb k v d = d ++ [(k, v)].
Proof.
  induction d as [|[k' v'] d IH]; simpl; [reflexivity|].
  intros Hk. destruct (Z.eqb_spec k k') as [->|Hne]; [tauto|].
  rewrite IH; [reflexivity | tauto].
Qed.

Lemma contains_self (f : string) : contains f f = true.
Proof.
  assert (H : startswith f f = true).
  { unfold startswith. rewrite <- (append_empty_r f) at 2.
    now rewrite strip_prefix_append. }
  destruct f; simpl; [reflexivity|]. simpl in H. now rewrite H.
Qed.

Lemma contains_filled (k : nat) (f : string) : contains f (filled k f) = true.
Proof.
  induction k as [|k IH]; [apply contains_self|].
  simpl. rewrite IH. apply orb_true_r.
Qed.

Lemma length_filled (k : nat) (f : string) :
  String.length (filled k f) = (k + String.length f)%nat.
Proof. induction k as [|k IH]; simpl; [reflexivity | now rewrite IH]. Qed.

Lemma prefixed_differs (m : string) : "x" +++ m <> m.
Proof.
  intros H. apply (f_equal String.length) in H. simpl in H. lia.
Qed.



















(** ** Dry runs *)

(** C7, as the specification states it, fails: in a dry run the
    constructor still sends the download request to the source tracker,
    and when that request fails there is no token at all. *)
Lemma dry_run_attachment_downloads :
  existsb network_io (snd (Attachment.__init__ (demo_env true) 7 "a.png" [])) = true /\
  Attachment.__init__ (offline_env true) 7 "a.png" [] =
  (Raise (BackendError "https://bugs.example/attachment.cgi?id=7"),
   [download_request (offline_env true) 7]).
Proof. vm_compute. split; reflexivity. Qed.

(** C7, amended.  In a dry run the constructor of [Attachment] issues
    the download request without the dry-run flag, so that request goes
    to the network, and the upload request with the flag set, so that
    one does not.  When the download succeeds the token is the
    placeholder made of the filename, whatever came back; when it fails
    the constructor raises before any upload is issued. *)
Theorem dry_run_attachment
        (E : Env) (n : Z) (fname : string) (log : list request) :
  dry_run (conf E) = true ->
  network_io (download_request E n) = true /\
  (forall data, network_io (upload_request E fname data) = false) /\
  (forall resp,
      backend E log (download_request E n) = Some resp ->
      Attachment.__init__ E n fname log =
      (OK {| Attachment.id := n; Attachment.filename := fname;
             Attachment.headers := default_headers (conf E);
             Attachment.markdown := "[attachment](" +++ fname +++ ")" |},
       log ++ [download_request E n; upload_request E fname (content resp)])) /\
  (backend E log (download_request E n) = None ->
   Attachment.__init__ E n fname log =
   (Raise (BackendError (req_url (download_request E n))),
    log ++ [download_request E n])).
Proof.
  intros Hdry. split; [reflexivity|]. split.
  { intros data. unfold network_io, upload_request. simpl. now rewrite Hdry. }
  split.
  - intros resp Hresp.
    unfold Attachment.__init__, Attachment.__upload_attachment, bind.
    fold (download_request E n).
    unfold _perform_request at 1.
    change (network_io (download_request E n)) with true. cbv iota.
    rewrite Hresp.
    fold (upload_request E fname (content resp)).
    unfold _perform_request.
    replace (network_io (upload_request E fname (content resp))) with false
      by (unfold network_io, upload_request; simpl; now rewrite Hdry).
    rewrite Hdry. unfold ret. rewrite <- app_assoc. reflexivity.
  - intros Hresp.
    unfold Attachment.__init__, Attachment.__upload_attachment, bind.
    fold (download_request E n).
    unfold _perform_request at 1.
    change (network_io (download_request E n)) with true. cbv iota.
    now rewrite Hresp.
Qed.

Lemma dry_run_attachment_witness :
  Attachment.__init__ (demo_env true) 7 "a.png" [] =
  (OK {| Attachment.id := 7; Attachment.filename := "a.png";
         Attachment.headers := [("private-token", VStr "secret")];
         Attachment.markdown := "[attachment](a.png)" |},
   [download_request (demo_env true) 7;
    upload_request (demo_env true) "a.png" "bytes"]).
Proof.
  exact (proj1 (proj2 (proj2
    (dry_run_attachment (demo_env true) 7 "a.png" [] eq_refl)))
    demo_response eq_refl).
Defined.

(** ** Folding the first comment into the description *)

Lemma submitter_tail (s : string) (g : option string) :
  exists rest,
    run (Seq (Opt (Cls space)) (Seq (Star dot) Eol)) s g
        (fun r g' => Some (r, g')) = Some (rest, g).
Proof.
  rewrite run_seq, run_opt, run_cls.
  destruct s as [|c s].
  - exists EmptyString. now apply run_rest_of_line.
  - destruct (space c).
    + exists (drop_run dot s).
      now rewrite (run_rest_of_line _ _ _ (drop_run dot s, g)).
    + exists (drop_run dot (String c s)). now apply run_rest_of_line.
Qed.



Lemma ext_heading_nonempty (s : string) : nonempty (Issue.ext_heading +++ s) = true.
Proof. reflexivity. Qed.



(** Line 127 on an interpreter older than Python 3.7. *)









(** From Python 3.7 on the pattern of line 127 matches the empty string
    between any two characters, and the text is cut there too. *)
Lemma split_between_characters :
  re_split true (Star newline) "crash" = [""; "c"; "r"; "a"; "s"; "h"; ""] /\
  re_split false (Star newline) "crash" = ["crash"].
Proof. split; reflexivity. Qed.



(** ** The order of submission *)

Lemma directives_app (a b : list request) :
  directives (a ++ b) = directives a ++ directives b.
Proof. unfold directives. now rewrite map_app, filter_app. Qed.

Lemma perform_request_log E req log r log' :
  _perform_request E req log = (r, log') -> log' = log ++ [req].
Proof.
  unfold _perform_request.
  destruct (network_io req); [destruct (backend E log req)|]; now intros [= _ <-].
Qed.

Lemma toggle_admin_log E hdrs user state log r log' :
  Issue.toggle_admin E hdrs user state log = (r, log') ->
  exists evs, log' = log ++ evs /\ directives evs = [].
Proof.
  unfold Issue.toggle_admin, bind, lookup, ret, raise.
  destruct (dict_get Z.eqb user (gitlab_user_admins (conf E))) as [is_admin|].
  - destruct is_admin; simpl.
    + intros [= _ <-]. exists []. now rewrite app_nil_r.
    + destruct (dict_get String.eqb "private-token" hdrs) as [token|].
      * unfold set_user_isadmin.
        match goal with
        | |- match _perform_request E ?q log with _ => _ end = _ -> _ =>
            destruct (_perform_request E q log) as [[resp|e] l1] eqn:Hp;
            apply perform_request_log in Hp; subst l1;
            intros [= _ <-]; exists [q]; split; reflexivity
        end.
      * intros [= _ <-]. exists []. now rewrite app_nil_r.
  - intros [= _ <-]. exists []. now rewrite app_nil_r.
Qed.

Lemma issue_validate_log self log r log' :
  Issue.validate self log = (r, log') ->
  log' = log /\ (forall b, r = OK b -> validated self).
Proof.
  unfold Issue.validate, validated, raise, ret.
  destruct (Issue.title self); simpl; [intros [= <- <-]; split; [|discriminate]; auto|].
  destruct (Issue.description self); simpl;
    [intros [= <- <-]; split; [|discriminate]; auto|].
  destruct (Issue.status self); simpl;
    [intros [= <- <-]; split; [|discriminate]; auto|].
  intros [= <- <-]. split; [reflexivity|]. intros _ _.
  repeat split; discriminate.
Qed.

Lemma comment_validate_log self log r log' :
  Comment.validate self log = (r, log') -> log' = log.
Proof.
  unfold Comment.validate, raise, ret.
  destruct (negb (nonempty (Comment.body self))); [now intros [= _ <-]|].
  destruct (Comment.issue_id self) as [n|]; [|now intros [= _ <-]].
  destruct (n =? 0)%Z; now intros [= _ <-].
Qed.

Ltac log_done :=
  repeat match goal with |- _ /\ _ => split end;
  try (intros; discriminate);
  try (right; reflexivity); try (left; reflexivity);
  try (intros Hcontra; now contradiction Hcontra);
  try (intros; assumption); auto.

(** [Issue.save] logs at most one directive, the submission of the
    issue, and only after validation; a run without exception has
    logged it and leaves the status alone and the iid set. *)
Lemma issue_save_log E self log r log' :
  Issue.save E self log = (r, log') ->
  exists evs,
    log' = log ++ evs /\
    (directives evs = [] \/ directives evs = [SubmitIssue]) /\
    (directives evs <> [] -> validated self) /\
    (forall self', r = OK self' ->
       directives evs = [SubmitIssue] /\
       Issue.status self' = Issue.status self /\
       exists n, Issue.iid self' = Some n).
Proof.
  unfold Issue.save, bind.
  destruct (Issue.validate self log) as [[b|e] l0] eqn:Hv.
  2:{ apply issue_validate_log in Hv as [-> _]. intros [= <- <-].
      exists []. rewrite app_nil_r. log_done. }
  apply issue_validate_log in Hv as [-> Hval].
  specialize (Hval b eq_refl).
  destruct (Issue.toggle_admin E (Issue.headers self) (Issue.sudo self) "true" log)
    as [[[]|e] l1] eqn:H1; apply toggle_admin_log in H1 as (evs1 & -> & Hd1).
  2:{ intros [= <- <-]. exists evs1. rewrite Hd1.
      log_done. }
  destruct (_perform_request E (Issue.post_request E self) (log ++ evs1))
    as [[resp|e] l2] eqn:H2; apply perform_request_log in H2; subst l2.
  2:{ intros [= <- <-]. exists (evs1 ++ [Issue.post_request E self]).
      rewrite app_assoc, directives_app, Hd1.
      log_done. }
  match goal with
  | |- match Issue.toggle_admin E ?h ?u ?s ?l with _ => _ end = _ -> _ =>
      destruct (Issue.toggle_admin E h u s l) as [[[]|e] l3] eqn:H3;
      apply toggle_admin_log in H3 as (evs3 & -> & Hd3)
  end.
  2:{ intros [= <- <-].
      exists (evs1 ++ [Issue.post_request E self] ++ evs3).
      rewrite !app_assoc, !directives_app, Hd1, Hd3.
      log_done. }
  assert (Hlog : forall evs, evs = evs1 ++ [Issue.post_request E self] ++ evs3 ->
                             directives evs = [SubmitIssue]).
  { intros evs ->. now rewrite !directives_app, Hd1, Hd3. }
  destruct (dry_run (conf E)).
  - unfold ret. intros [= <- <-].
    exists (evs1 ++ [Issue.post_request E self] ++ evs3).
    rewrite !app_assoc. rewrite <- !app_assoc. rewrite (Hlog _ eq_refl).
    log_done. intros self' [= <-]. simpl. repeat split; eauto.
  - unfold lookup, ret, raise.
    destruct (json_iid resp) as [new_iid|].
    + destruct (json_id resp) as [new_id|]; intros [= <- <-];
        exists (evs1 ++ [Issue.post_request E self] ++ evs3);
        rewrite !app_assoc; rewrite <- !app_assoc; rewrite (Hlog _ eq_refl);
        log_done.
      intros self' [= <-]. simpl. repeat split; eauto.
    + intros [= <- <-].
      exists (evs1 ++ [Issue.post_request E self] ++ evs3).
      rewrite !app_assoc. rewrite <- !app_assoc. rewrite (Hlog _ eq_refl).
      log_done.
Qed.

(** [Comment.save] logs at most one directive, the submission of the
    comment; a run without exception has logged it. *)
Lemma comment_save_log E self log r log' :
  Comment.save E self log = (r, log') ->
  exists evs,
    log' = log ++ evs /\
    (directives evs = [] \/ directives evs = [SubmitComment (Comment.body self)]) /\
    (forall self', r = OK self' ->
       directives evs = [SubmitComment (Comment.body self)]).
Proof.
  unfold Comment.save, bind.
  destruct (Comment.validate self log) as [[[]|e] l0] eqn:Hv;
    apply comment_validate_log in Hv; subst l0.
  2:{ intros [= <- <-]. exists []. rewrite app_nil_r. log_done. }
  destruct (Issue.toggle_admin E (Comment.headers self) (Comment.sudo self) "true" log)
    as [[[]|e] l1] eqn:H1; apply toggle_admin_log in H1 as (evs1 & -> & Hd1).
  2:{ intros [= <- <-]. exists evs1. rewrite Hd1. log_done. }
  destruct (Comment.issue_id self) as [n|].
  2:{ unfold raise. intros [= <- <-]. exists evs1. rewrite Hd1. log_done. }
  destruct (_perform_request E (Comment.post_request E self n) (log ++ evs1))
    as [[resp|e] l2] eqn:H2; apply perform_request_log in H2; subst l2.
  2:{ intros [= <- <-]. exists (evs1 ++ [Comment.post_request E self n]).
      rewrite app_assoc, directives_app, Hd1. log_done. }
  match goal with
  | |- match Issue.toggle_admin E ?h ?u ?s ?l with _ => _ end = _ -> _ =>
      destruct (Issue.toggle_admin E h u s l) as [[[]|e] l3] eqn:H3;
      apply toggle_admin_log in H3 as (evs3 & -> & Hd3)
  end.
  - unfold ret. intros [= <- <-].
    exists (evs1 ++ [Comment.post_request E self n] ++ evs3).
    rewrite !app_assoc. rewrite <- !app_assoc.
    rewrite !directives_app, Hd1, Hd3. log_done.
  - intros [= <- <-].
    exists (evs1 ++ [Comment.post_request E self n] ++ evs3).
    rewrite !app_assoc. rewrite <- !app_assoc.
    rewrite !directives_app, Hd1, Hd3. log_done.
Qed.

Lemma firstn_extend {A} (k : nat) (l tail : list A) :
  exists k', firstn k l = firstn k' (l ++ tail).
Proof.
  exists (Nat.min k (List.length l)).
  rewrite firstn_app.
  replace (Nat.min k (List.length l) - List.length l)%nat with 0%nat by lia.
  simpl. rewrite app_nil_r.
  destruct (Nat.le_ge_cases k (List.length l)) as [H|H].
  - now rewrite Nat.min_l.
  - rewrite Nat.min_r by assumption.
    now rewrite !firstn_all2.
Qed.

(** The loop over the comments logs their submissions in order, up to
    the first one that fails. *)
Lemma save_comments_log E issue_iid (l : list Comment.t) :
  forall log r log',
    IssueThread.save_comments E issue_iid l log = (r, log') ->
    exists evs k,
      log' = log ++ evs /\
      directives evs = firstn k (map (fun c => SubmitComment (Comment.body c)) l) /\
      (forall cs, r = OK cs ->
         directives evs = map (fun c => SubmitComment (Comment.body c)) l).
Proof.
  induction l as [|c l IH]; intros log r log'; simpl.
  - unfold ret. intros [= <- <-]. exists [], 0%nat. rewrite app_nil_r.
    repeat split.
  - unfold bind, getattr.
    destruct issue_iid as [n|].
    2:{ unfold raise. intros [= <- <-]. exists [], 0%nat. rewrite app_nil_r.
        repeat split. discriminate. }
    unfold ret at 1.
    destruct (Comment.save E (Comment.set_issue_id n c) log) as [[c'|e] l1] eqn:Hc;
      apply comment_save_log in Hc as (evs1 & -> & Hd1 & Hok1); simpl in Hd1, Hok1.
    2:{ intros [= <- <-]. destruct Hd1 as [Hd1|Hd1].
        - exists evs1, 0%nat. rewrite Hd1. repeat split. discriminate.
        - exists evs1, 1%nat. rewrite Hd1. repeat split. discriminate. }
    specialize (Hok1 c' eq_refl).
    destruct (IssueThread.save_comments E (Some n) l (log ++ evs1))
      as [[cs|e] l2] eqn:Hl;
      apply IH in Hl as (evs2 & k & -> & Hd2 & Hok2).
    + unfold ret. intros [= <- <-]. exists (evs1 ++ evs2), (S k).
      rewrite app_assoc, directives_app, Hok1, Hd2.
      repeat split. intros cs' _. simpl. f_equal.
      rewrite <- Hd2. now apply (Hok2 cs).
    + intros [= <- <-]. exists (evs1 ++ evs2), (S k).
      rewrite app_assoc, directives_app, Hok1, Hd2.
      repeat split. discriminate.
Qed.

Lemma issue_close_log E self log r log' :
  Issue.close E self log = (r, log') ->
  exists evs,
    log' = log ++ evs /\
    (directives evs = [] \/ directives evs = [CloseIssue]) /\
    (forall self', r = OK self' -> directives evs = [CloseIssue]).
Proof.
  unfold Issue.close, bind.
  destruct (Issue.iid self) as [n|].
  2:{ unfold raise. intros [= <- <-]. exists []. rewrite app_nil_r. log_done. }
  destruct (_perform_request E (Issue.close_request E self n) log)
    as [[resp|e] l1] eqn:Hp; apply perform_request_log in Hp; subst l1.
  - unfold ret. intros [= <- <-]. exists [Issue.close_request E self n]. log_done.
  - intros [= <- <-]. exists [Issue.close_request E self n]. log_done.
Qed.

Lemma in_firstn {A} (x : A) (k : nat) (l : list A) :
  In x (firstn k l) -> In x l.
Proof.
  intros H. rewrite <- (firstn_skipn k l). apply in_or_app. now left.
Qed.

Lemma no_close_among_comments (k : nat) (l : list Comment.t) :
  ~ In CloseIssue (firstn k (map (fun c => SubmitComment (Comment.body c)) l)).
Proof.
  intros H. apply in_firstn in H. apply in_map_iff in H as (c & Hc & _).
  discriminate.
Qed.

(** The order of what [save] logs: an initial stretch of the expected
    directives, all of them in a run without exception. *)
Lemma save_order
        (E : Env) (self : IssueThread.t) (log : list request)
        (r : result IssueThread.t) (log' : list request) :
  IssueThread.save E self log = (r, log') ->
  exists evs,
    log' = log ++ evs /\
    (exists k, directives evs = firstn k (expected_directives self)) /\
    ((exists t, r = OK t) ->
     directives evs = expected_directives self /\
     (In CloseIssue (directives evs) <->
      Issue.status (IssueThread.issue self) = "RESOLVED")) /\
    (In CloseIssue (directives evs) ->
     Issue.status (IssueThread.issue self) = "RESOLVED" /\
     directives evs = expected_directives self /\
     exists before, directives evs = before ++ [CloseIssue] /\
                    ~ In CloseIssue before) /\
    (directives evs <> [] -> validated (IssueThread.issue self)).
Proof.
  unfold IssueThread.save, bind, expected_directives.
  set (notes := map (fun c => SubmitComment (Comment.body c))
                    (IssueThread.comments self)).
  destruct (Issue.save E (IssueThread.issue self) log) as [[the_issue|e] l1] eqn:Hi;
    apply issue_save_log in Hi as (evs1 & -> & Hd1 & Hval & Hok1).
  { (* the issue is submitted *)
    destruct (Hok1 the_issue eq_refl) as (Hs1 & Hstatus & n & Hiid).
    rewrite Hstatus. clear Hok1 Hd1.
    assert (Hv : validated (IssueThread.issue self))
      by (apply Hval; rewrite Hs1; discriminate).
    destruct (IssueThread.save_comments E (Issue.iid the_issue)
                                        (IssueThread.comments self) (log ++ evs1))
      as [[cs|e] l2] eqn:Hc;
      apply save_comments_log in Hc as (evs2 & k & -> & Hd2 & Hok2);
      fold notes in Hd2, Hok2.
    - (* all comments are submitted *)
      specialize (Hok2 cs eq_refl).
      destruct (String.eqb_spec (Issue.status (IssueThread.issue self)) "RESOLVED")
        as [Hres|Hres].
      + destruct (Issue.close E the_issue ((log ++ evs1) ++ evs2))
          as [[closed|e] l3] eqn:Hcl;
          apply issue_close_log in Hcl as (evs3 & -> & Hd3 & Hok3).
        * specialize (Hok3 closed eq_refl).
          unfold ret. intros [= <- <-]. exists (evs1 ++ evs2 ++ evs3).
          rewrite !app_assoc. rewrite <- !app_assoc.
          rewrite !directives_app, Hs1, Hok2, Hok3. simpl.
          split; [reflexivity|]. split.
          { exists (List.length (SubmitIssue :: notes ++ [CloseIssue])).
            now rewrite firstn_all. }
          split; [intros _; split; [reflexivity|]|split].
          -- split; [auto|]. intros _. right. apply in_or_app. right. now left.
          -- intros _. split; [assumption|]. split; [reflexivity|].
             exists (SubmitIssue :: notes). split; [reflexivity|].
             intros [H|H]; [discriminate|].
             apply (no_close_among_comments (List.length notes)
                                            (IssueThread.comments self)).
             fold notes. now rewrite firstn_all.
          -- auto.
        * intros [= <- <-]. exists (evs1 ++ evs2 ++ evs3).
          rewrite !app_assoc. rewrite <- !app_assoc.
          rewrite !directives_app, Hs1, Hok2. simpl.
          split; [reflexivity|].
          destruct Hd3 as [Hd3|Hd3]; rewrite Hd3.
          -- rewrite app_nil_r. split.
             { exists (S (List.length notes)). simpl. f_equal.
               rewrite firstn_app, firstn_all, Nat.sub_diag. simpl.
               now rewrite app_nil_r. }
             split; [intros [t Ht]; discriminate|]. split; [|auto].
             intros [H|H]; [discriminate|]. exfalso.
             apply (no_close_among_comments (List.length notes)
                                            (IssueThread.comments self)).
             fold notes. now rewrite firstn_all.
          -- split.
             { exists (List.length (SubmitIssue :: notes ++ [CloseIssue])).
               now rewrite firstn_all. }
             split; [intros [t Ht]; discriminate|]. split; [|auto].
             intros _. split; [assumption|]. split; [reflexivity|].
             exists (SubmitIssue :: notes). split; [reflexivity|].
             intros [H|H]; [discriminate|].
             apply (no_close_among_comments (List.length notes)
                                            (IssueThread.comments self)).
             fold notes. now rewrite firstn_all.
      + unfold ret. intros [= <- <-]. exists (evs1 ++ evs2).
        rewrite !app_assoc. rewrite !directives_app, Hs1, Hok2. simpl.
        rewrite app_nil_r.
        split; [reflexivity|]. split.
        { exists (List.length (SubmitIssue :: notes)). now rewrite firstn_all. }
        assert (Hno : ~ In CloseIssue (SubmitIssue :: notes)).
        { intros [H|H]; [discriminate|].
          apply (no_close_among_comments (List.length notes)
                                         (IssueThread.comments self)).
          fold notes. now rewrite firstn_all. }
        split; [intros _; split; [reflexivity|]|split].
        * split; [intros H; contradiction | intros H; contradiction].
        * intros H. contradiction.
        * auto.
    - (* a comment fails *)
      intros [= <- <-]. exists (evs1 ++ evs2).
      rewrite !app_assoc. rewrite !directives_app, Hs1, Hd2. simpl.
      split; [reflexivity|]. split.
      { destruct (firstn_extend k notes
                    (if String.eqb (Issue.status (IssueThread.issue self)) "RESOLVED"
                     then [CloseIssue] else [])) as [k' Hk'].
        exists (S k'). simpl. now rewrite Hk'. }
      split; [intros [t Ht]; discriminate|]. split; [|auto].
      intros [H|H]; [discriminate|]. exfalso.
      now apply (no_close_among_comments k (IssueThread.comments self)). }
  (* the submission of the issue fails *)
  intros [= <- <-]. exists evs1. split; [reflexivity|].
  destruct Hd1 as [Hd1|Hd1]; rewrite Hd1 in *.
  - split; [now exists 0%nat|].
    split; [intros [t Ht]; discriminate|]. split; [intros []|].
    intros H. now contradiction H.
  - split; [now exists 1%nat|].
    split; [intros [t Ht]; discriminate|]. split.
    + intros [H|[]]. discriminate.
    + intros _. apply Hval. discriminate.
Qed.

(** Which requests were answered. *)

Lemma answered_all_app E sent (a b : list request) :
  answered_all E sent (a ++ b) <->
  answered_all E sent a /\ answered_all E (sent ++ a) b.
Proof.
  revert sent. induction a as [|q a IH]; intros sent; simpl.
  - rewrite app_nil_r. tauto.
  - rewrite IH, <- app_assoc. simpl. tauto.
Qed.

Lemma answered_all_at E sent pre q post :
  answered_all E sent (pre ++ q :: post) -> answered E (sent ++ pre) q.
Proof.
  intros H. apply answered_all_app in H. destruct H as [_ H].
  simpl in H. exact (proj1 H).
Qed.

Lemma tracks_ret {A} E (a : A) : tracks E (ret a).
Proof.
  intros log r log' [= <- <-]. exists []. rewrite app_nil_r. simpl. auto.
Qed.

Lemma tracks_raise {A} E (e : exn) : tracks E (@raise A e).
Proof.
  intros log r log' [= <- <-]. exists []. rewrite app_nil_r. simpl. auto.
Qed.

Lemma tracks_lookup {A} E (o : option A) (key : string) : tracks E (lookup o key).
Proof. destruct o; [apply tracks_ret | apply tracks_raise]. Qed.

Lemma tracks_getattr {A} E (o : option A) (name : string) : tracks E (getattr o name).
Proof. destruct o; [apply tracks_ret | apply tracks_raise]. Qed.

Lemma tracks_perform E (req : request) : tracks E (_perform_request E req).
Proof.
  intros log r log' H. exists [req]. unfold _perform_request in H.
  destruct (network_io req) eqn:Hio.
  - destruct (backend E log req) as [resp|] eqn:Hb; injection H as <- <-;
      (split; [reflexivity|]); (split; [exact I|]); intros a Ha;
      [|discriminate].
    simpl. split; [|exact I]. right. now exists resp.
  - injection H as <- <-. split; [reflexivity|]. split; [exact I|].
    intros a _. simpl. split; [|exact I]. now left.
Qed.

Lemma tracks_bind {A B} E (c : M A) (f : A -> M B) :
  tracks E c -> (forall a, tracks E (f a)) -> tracks E (bind c f).
Proof.
  intros Hc Hf log r log' H. unfold bind in H.
  destruct (c log) as [[a|e] l1] eqn:Hrun;
    apply Hc in Hrun as (evs1 & -> & Hbut1 & Hall1).
  - apply Hf in H as (evs2 & -> & Hbut2 & Hall2).
    specialize (Hall1 a eq_refl).
    exists (evs1 ++ evs2). rewrite app_assoc. split; [reflexivity|]. split.
    + destruct evs2 as [|q evs2].
      * rewrite app_nil_r. exact Hbut1.
      * rewrite removelast_app by discriminate.
        apply answered_all_app. now split.
    + intros b Hb. apply answered_all_app. split; [assumption | now apply (Hall2 b)].
  - injection H as <- <-. exists evs1. split; [reflexivity|].
    split; [assumption | discriminate].
Qed.

Ltac tracks_step :=
  cbv zeta;
  match goal with
  | |- tracks _ (ret _) => apply tracks_ret
  | |- tracks _ (raise _) => apply tracks_raise
  | |- tracks _ (lookup _ _) => apply tracks_lookup
  | |- tracks _ (getattr _ _) => apply tracks_getattr
  | |- tracks _ (_perform_request _ _) => apply tracks_perform
  | |- tracks _ (bind _ _) => apply tracks_bind; [|intros]
  | |- tracks _ (if ?b then _ else _) => destruct b
  | |- tracks _ (match ?x with _ => _ end) => destruct x
  end.

Lemma tracks_toggle_admin E hdrs user state :
  tracks E (Issue.toggle_admin E hdrs user state).
Proof.
  unfold Issue.toggle_admin, set_user_isadmin. repeat tracks_step.
Qed.

Lemma tracks_issue_validate E self : tracks E (Issue.validate self).
Proof. unfold Issue.validate. repeat tracks_step. Qed.

Lemma tracks_comment_validate E self : tracks E (Comment.validate self).
Proof. unfold Comment.validate. repeat tracks_step. Qed.

Lemma tracks_issue_save E self : tracks E (Issue.save E self).
Proof.
  unfold Issue.save.
  repeat first [apply tracks_issue_validate | apply tracks_toggle_admin
               | tracks_step].
Qed.

Lemma tracks_comment_save E self : tracks E (Comment.save E self).
Proof.
  unfold Comment.save.
  repeat first [apply tracks_comment_validate | apply tracks_toggle_admin
               | tracks_step].
Qed.

Lemma tracks_save_comments E issue_iid (l : list Comment.t) :
  tracks E (IssueThread.save_comments E issue_iid l).
Proof.
  induction l as [|c l IH]; simpl; [apply tracks_ret|].
  repeat first [apply tracks_comment_save | apply IH | tracks_step].
Qed.

Lemma tracks_issue_close E self : tracks E (Issue.close E self).
Proof. unfold Issue.close. repeat tracks_step. Qed.

Lemma tracks_thread_save E self : tracks E (IssueThread.save E self).
Proof.
  unfold IssueThread.save.
  repeat first [apply tracks_issue_save | apply tracks_save_comments
               | apply tracks_issue_close | tracks_step].
Qed.

Lemma kind_last_directive (pre : list request) (q : request) :
  is_toggle (kind q) = false ->
  directives (pre ++ [q]) = directives pre ++ [kind q].
Proof.
  intros H. rewrite directives_app. unfold directives at 2. simpl.
  now rewrite H.
Qed.

(** C9. Whatever the remote end answers, what [save] adds to the log
    is, apart from the switching of admin rights, an initial stretch of:
    the submission of the issue, the submissions of its comments in
    order, and the close directive if the status is RESOLVED.  A run
    without exception logs all of it, so that it closes exactly when the
    status is RESOLVED; a close directive in the log has the whole
    sequence before it; and nothing is submitted unless the issue passed
    validation.  Every request but the last one of the log was answered
    by the destination (or was a dry-run call), and in a run without
    exception the last one too: a rejected request ends the save.  In
    particular, when the close directive is in the log, the submission
    of the issue and of every comment before it was answered. *)
Theorem save_lifecycle
        (E : Env) (self : IssueThread.t) (log : list request)
        (r : result IssueThread.t) (log' : list request) :
  IssueThread.save E self log = (r, log') ->
  exists evs,
    log' = log ++ evs /\
    (exists k, directives evs = firstn k (expected_directives self)) /\
    ((exists t, r = OK t) ->
     directives evs = expected_directives self /\
     (In CloseIssue (directives evs) <->
      Issue.status (IssueThread.issue self) = "RESOLVED")) /\
    (In CloseIssue (directives evs) ->
     Issue.status (IssueThread.issue self) = "RESOLVED" /\
     directives evs = expected_directives self /\
     exists before, directives evs = before ++ [CloseIssue] /\
                    ~ In CloseIssue before) /\
    (directives evs <> [] -> validated (IssueThread.issue self)) /\
    (forall pre q post,
        evs = pre ++ q :: post -> post <> [] -> answered E (log ++ pre) q) /\
    ((exists t, r = OK t) ->
     forall pre q post, evs = pre ++ q :: post -> answered E (log ++ pre) q) /\
    (In CloseIssue (directives evs) ->
     forall pre q post,
       evs = pre ++ q :: post ->
       kind q = SubmitIssue \/ (exists body, kind q = SubmitComment body) ->
       answered E (log ++ pre) q).
Proof.
  intros Hsave.
  destruct (save_order E self log r log' Hsave)
    as (evs & Hlog & Hprefix & Hdone & Hclose & Hvalid).
  destruct (tracks_thread_save E self log r log' Hsave)
    as (evs' & Hlog' & Hbut & Hall).
  assert (evs' = evs) by (apply (app_inv_head log); congruence). subst evs'.
  assert (Hnotlast : forall pre q post,
             evs = pre ++ q :: post -> post <> [] -> answered E (log ++ pre) q).
  { intros pre q post Heq Hpost. rewrite Heq in Hbut.
    rewrite removelast_app in Hbut by discriminate.
    destruct post as [|p post]; [congruence|].
    change (removelast (q :: p :: post)) with (q :: removelast (p :: post)) in Hbut.
    exact (answered_all_at E log pre q _ Hbut). }
  exists evs.
  split; [exact Hlog|]. split; [exact Hprefix|]. split; [exact Hdone|].
  split; [exact Hclose|]. split; [exact Hvalid|]. split; [exact Hnotlast|].
  split.
  - intros [t Ht] pre q post Heq. specialize (Hall t Ht). rewrite Heq in Hall.
    exact (answered_all_at E log pre q post Hall).
  - intros Hin pre q post Heq Hkind.
    apply (Hnotlast pre q post Heq). intros ->.
    destruct (Hclose Hin) as (_ & _ & before & Hlast & _).
    rewrite Heq, kind_last_directive in Hlast
      by (destruct Hkind as [->|[body ->]]; reflexivity).
    apply app_inj_tail in Hlast as [_ Hk].
    destruct Hkind as [Hq|[body Hq]]; rewrite Hq in Hk; discriminate.
Qed.

Lemma save_lifecycle_witness :
  exists evs,
    snd (IssueThread.save (demo_env true) (demo_thread "RESOLVED") []) = [] ++ evs /\
    directives evs =
    [SubmitIssue; SubmitComment "I see it too"; SubmitComment "Fixed"; CloseIssue].
Proof.
  destruct (save_lifecycle (demo_env true) (demo_thread "RESOLVED") [] _ _ eq_refl)
    as (evs & Hlog & _ & Hdone & _).
  exists evs. split; [exact Hlog|].
  exact (proj1 (Hdone (ex_intro _ _ eq_refl))).
Defined.

(* ===================================================================== *)
(** * Further properties of the module *)
(* ===================================================================== *)

(** ** Checks that come before any request *)

(** X1. [IssueThread.load_objects] on a record whose reporter has no
    entry in the user mapping raises the configuration exception that
    quotes the reporter; with a mapped reporter and an unmapped assignee
    it raises the one that quotes the assignee.  In both cases no
    request has been issued. *)
Theorem unmapped_user_aborts_before_requests
        (E : Env) (fields : Fields) (log : list request) :
  (dict_mem String.eqb (reporter fields) (bugzilla_users (conf E)) = false ->
   IssueThread.load_objects E fields log =
   (Raise (Exception (unmapped_message (reporter fields))), log)) /\
  (dict_mem String.eqb (reporter fields) (bugzilla_users (conf E)) = true ->
   dict_mem String.eqb (assigned_to fields) (bugzilla_users (conf E)) = false ->
   IssueThread.load_objects E fields log =
   (Raise (Exception (unmapped_message (assigned_to fields))), log)).
Proof.
  split.
  - intros Hr. unfold IssueThread.load_objects, Issue.__init__, bind, validate_user.
    now rewrite Hr.
  - intros Hr Ha.
    unfold IssueThread.load_objects, Issue.__init__, bind, validate_user.
    now rewrite Hr, Ha.
Qed.

Lemma unmapped_user_aborts_before_requests_witness :
  IssueThread.load_objects (demo_env false) unmapped_fields [] =
  (Raise (Exception
     "Bugzilla user `carol` not found in user_mappings.yml. Please add them before continuing."),
   []).
Proof.
  exact (proj1 (unmapped_user_aborts_before_requests
                  (demo_env false) unmapped_fields []) eq_refl).
Defined.

(** X2. [IssueThread.save] on a thread whose issue has an empty title,
    description or status raises the exception that names the first of
    these fields that is empty, and issues no request: neither the
    issue nor any comment is sent. *)
Theorem invalid_issue_is_not_submitted
        (E : Env) (self : IssueThread.t) (log : list request) :
  ~ validated (IssueThread.issue self) ->
  exists field,
    IssueThread.save E self log =
    (Raise (Exception ("Missing value for required field: " +++ field)), log) /\
    (field = "title" /\ Issue.title (IssueThread.issue self) = EmptyString \/
     field = "description" /\ Issue.title (IssueThread.issue self) <> EmptyString /\
       Issue.description (IssueThread.issue self) = EmptyString \/
     field = "status" /\ Issue.title (IssueThread.issue self) <> EmptyString /\
       Issue.description (IssueThread.issue self) <> EmptyString /\
       Issue.status (IssueThread.issue self) = EmptyString).
Proof.
  intros Hinv. unfold validated in Hinv.
  unfold IssueThread.save, Issue.save, Issue.validate, bind, raise.
  destruct (Issue.title (IssueThread.issue self)) eqn:Ht.
  { exists "title". simpl. split; [reflexivity | now left]. }
  destruct (Issue.description (IssueThread.issue self)) eqn:Hd.
  { exists "description". simpl. split; [reflexivity|].
    right. left. repeat split. discriminate. }
  destruct (Issue.status (IssueThread.issue self)) eqn:Hs.
  { exists "status". simpl. split; [reflexivity|].
    right. right. repeat split; discriminate. }
  exfalso. apply Hinv. repeat split; discriminate.
Qed.

Lemma invalid_issue_is_not_submitted_witness :
  exists field,
    IssueThread.save (demo_env false) (demo_thread EmptyString) [] =
    (Raise (Exception ("Missing value for required field: " +++ field)), []) /\
    field = "status".
Proof.
  destruct (invalid_issue_is_not_submitted (demo_env false)
              (demo_thread EmptyString) [])
    as (field & Hrun & Hfield).
  - intros (_ & _ & Hs). now apply Hs.
  - exists field. split; [exact Hrun|].
    destruct Hfield as [[_ H]|[(_ & _ & H)|(Hf & _)]];
      [discriminate H | discriminate H | exact Hf].
Defined.

(** X3. [Comment.save] on a comment with an empty body, or with a body
    and the issue id 0, raises the exception that names the field and
    issues no request; so does a comment whose issue id was never
    set, with an attribute error. *)
Theorem invalid_comment_is_not_submitted
        (E : Env) (self : Comment.t) (log : list request) :
  (Comment.body self = EmptyString ->
   Comment.save E self log =
   (Raise (Exception "Missing value for required field: body"), log)) /\
  (Comment.body self <> EmptyString -> Comment.issue_id self = Some 0%Z ->
   Comment.save E self log =
   (Raise (Exception "Missing value for required field: issue_id"), log)) /\
  (Comment.body self <> EmptyString -> Comment.issue_id self = None ->
   Comment.save E self log = (Raise (AttributeError "issue_id"), log)).
Proof.
  unfold Comment.save, Comment.validate, bind, raise.
  repeat split.
  - intros ->. reflexivity.
  - intros Hb ->. destruct (Comment.body self); [congruence | reflexivity].
  - intros Hb ->. destruct (Comment.body self); [congruence | reflexivity].
Qed.

Lemma invalid_comment_is_not_submitted_witness :
  Comment.save (demo_env false)
    (Comment.set_issue_id 0 (demo_note 2 "I see it too")) [] =
  (Raise (Exception "Missing value for required field: issue_id"), []).
Proof.
  refine (proj1 (proj2 (invalid_comment_is_not_submitted (demo_env false)
            (Comment.set_issue_id 0 (demo_note 2 "I see it too")) [])) _ eq_refl).
  discriminate.
Defined.

(** ** The sanitizer and the labels *)

Lemma append_cancel_r (a b c : string) : a +++ c = b +++ c -> a = b.
Proof.
  revert b. induction a as [|x a IH]; intros b H.
  - destruct b as [|y b]; [reflexivity|].
    apply (f_equal String.length) in H. simpl in H.
    rewrite length_append in H. lia.
  - destruct b as [|y b].
    + apply (f_equal String.length) in H. simpl in H.
      rewrite length_append in H. lia.
    + simpl in H. injection H as -> H. now rewrite (IH b H).
Qed.

(** X4. The sanitizer loses nothing: two texts with the same sanitized
    form are the same text. *)
Theorem needs_quoting_injective (a b : string) :
  needs_quoting a = needs_quoting b -> a = b.
Proof.
  intros H.
  destruct (must_quote_dec a) as [Ha|Ha], (must_quote_dec b) as [Hb|Hb].
  - rewrite (needs_quoting_wraps a Ha), (needs_quoting_wraps b Hb) in H.
    unfold pre_block in H. simpl in H. injection H as H.
    now apply append_cancel_r in H.
  - rewrite (needs_quoting_wraps a Ha), (needs_quoting_keeps b Hb) in H.
    exfalso. apply Hb. rewrite <- H. apply pre_block_must_quote.
  - rewrite (needs_quoting_keeps a Ha), (needs_quoting_wraps b Hb) in H.
    exfalso. apply Ha. rewrite H. apply pre_block_must_quote.
  - now rewrite (needs_quoting_keeps a Ha), (needs_quoting_keeps b Hb) in H.
Qed.

Lemma needs_quoting_injective_witness : "a_b" = "a_b".
Proof. exact (needs_quoting_injective "a_b" "a_b" eq_refl). Defined.

Lemma join_snoc (sep : string) (l : list string) (x : string) :
  join sep (l ++ [x]) =
  match l with
  | [] => x
  | _ => join sep l +++ sep +++ x
  end.
Proof.
  induction l as [|y l IH]; [reflexivity|].
  destruct l as [|z l]; [reflexivity|].
  change (join sep ((y :: z :: l) ++ [x]))
    with (y +++ sep +++ join sep ((z :: l) ++ [x])).
  rewrite IH.
  change (join sep (y :: z :: l)) with (y +++ sep +++ join sep (z :: l)).
  now rewrite !append_assoc.
Qed.

Lemma create_labels_base (E : Env) (comp : string) (os : option string) :
  Issue.create_labels E comp os =
  join "," (base_labels E comp ++
            match os with
            | Some o => if nonempty o && negb (String.eqb o "Other") then [o] else []
            | None => []
            end).
Proof.
  unfold Issue.create_labels, base_labels, truthy_str.
  destruct (default_gitlab_labels (conf E)) as [|d ds];
    destruct (dict_get String.eqb comp (component_mappings (conf E))) as [label|];
    try destruct (nonempty label); destruct os as [o|];
    try destruct (nonempty o && negb (String.eqb o "Other"));
    simpl; rewrite ?app_nil_r; reflexivity.
Qed.

(** X5. The operating system gives no label when it is missing, empty or
    the word Other; any other operating system is the last label, after
    the default labels and the label of the component. *)
Theorem os_label_is_last_and_never_other
        (E : Env) (comp : string) :
  Issue.create_labels E comp (Some "Other") = Issue.create_labels E comp None /\
  Issue.create_labels E comp (Some EmptyString) = Issue.create_labels E comp None /\
  Issue.create_labels E comp None = join "," (base_labels E comp) /\
  forall os, os <> EmptyString -> os <> "Other" ->
    Issue.create_labels E comp (Some os) =
    match base_labels E comp with
    | [] => os
    | _ => Issue.create_labels E comp None +++ "," +++ os
    end.
Proof.
  rewrite !create_labels_base. simpl. rewrite app_nil_r.
  repeat split.
  intros os Hne Hother. rewrite create_labels_base.
  apply String.eqb_neq in Hother. rewrite Hother.
  destruct os; [congruence|]. simpl. apply join_snoc.
Qed.

Lemma os_label_is_last_and_never_other_witness :
  Issue.create_labels (demo_env false) "core" (Some "Linux") = "bugzilla,Core,Linux".
Proof.
  refine (proj2 (proj2 (proj2
    (os_label_is_last_and_never_other (demo_env false) "core"))) "Linux" _ _);
    discriminate.
Defined.

(** ** The announcement parser *)

Lemma int_of_digits_from_nonneg (s : string) (acc : Z) :
  (0 <= acc)%Z -> (0 <= int_of_digits_from acc s)%Z.
Proof.
  revert acc.
  induction s as [|c s IH]; intros acc H; cbn [int_of_digits_from];
    [assumption|].
  apply IH. lia.
Qed.

(** X6. [parse_comment_text] returns an id exactly for the texts that
    start with the announcement words, a run of digits and a closing
    parenthesis; the id is the value of the digits and is never
    negative; every other text, in particular one that has the words
    anywhere but at its start, gives [False]. *)
Theorem parse_comment_text_spec (txt : string) :
  (forall n, Attachment.parse_comment_text txt = VInt n <->
             exists ds rest, announces txt ds rest /\ n = int_of_digits ds) /\
  (Attachment.parse_comment_text txt = VBool false <->
   ~ exists ds rest, announces txt ds rest) /\
  (forall n, Attachment.parse_comment_text txt = VInt n -> (0 <= n)%Z) /\
  (strip_prefix "Created an attachment (id=" txt = None ->
   Attachment.parse_comment_text txt = VBool false).
Proof.
  assert (H1 : forall n, Attachment.parse_comment_text txt = VInt n <->
                         exists ds rest, announces txt ds rest /\ n = int_of_digits ds).
  { intros n. split.
    - intros Hp. destruct (parse_result txt) as [Hf|(ds & rest & Hann & Hv)];
        [congruence|].
      exists ds, rest. split; [assumption | congruence].
    - intros (ds & rest & Hann & ->). exact (parse_announced _ _ _ Hann). }
  assert (H2 : Attachment.parse_comment_text txt = VBool false <->
               ~ exists ds rest, announces txt ds rest).
  { split.
    - intros Hf (ds & rest & Hann).
      rewrite (parse_announced _ _ _ Hann) in Hf. discriminate.
    - intros Hno. destruct (parse_result txt) as [Hf|(ds & rest & Hann & _)];
        [assumption|].
      exfalso. apply Hno. now exists ds, rest. }
  split; [exact H1|]. split; [exact H2|]. split.
  - intros n Hp. apply H1 in Hp as (ds & rest & _ & ->).
    now apply int_of_digits_from_nonneg.
  - intros Hpre. apply H2. intros (ds & rest & -> & _).
    rewrite strip_prefix_append in Hpre. discriminate.
Qed.

Lemma parse_comment_text_spec_witness :
  Attachment.parse_comment_text
    ("See above." +++ nl +++ "Created an attachment (id=7)") = VBool false.
Proof.
  exact (proj2 (proj2 (proj2 (parse_comment_text_spec
    ("See above." +++ nl +++ "Created an attachment (id=7)")))) eq_refl).
Defined.

Lemma digits_value (d : Decimal.uint) (acc : positive) :
  int_of_digits_from (Z.pos acc) (NilEmpty.string_of_uint d) =
  Z.pos (Pos.of_uint_acc d acc).
Proof.
  revert acc.
  induction d; intros acc;
    cbn [NilEmpty.string_of_uint int_of_digits_from Pos.of_uint_acc];
    [reflexivity|..];
    rewrite <- IHd; f_equal;
    match goal with
    | |- context [Z.of_nat ?k] =>
        let v := eval vm_compute in (Z.of_nat k) in
        change (Z.of_nat k) with v
    end.
  all: lia.
Qed.

Lemma digits_value_0 (d : Decimal.uint) :
  int_of_digits_from 0 (NilEmpty.string_of_uint d) = Z.of_N (Pos.of_uint d).
Proof.
  induction d;
    cbn [NilEmpty.string_of_uint int_of_digits_from Pos.of_uint];
    try reflexivity; try exact IHd;
    match goal with
    | |- context [Z.of_nat ?k] =>
        let v := eval vm_compute in (Z.of_nat k) in
        change (Z.of_nat k) with v
    end;
    cbn [Z.mul Z.add Z.of_N]; now rewrite <- digits_value.
Qed.

Lemma digits_of_uint (d : Decimal.uint) :
  all_chars digit (NilEmpty.string_of_uint d) = true.
Proof. induction d; simpl; [reflexivity|..]; exact IHd. Qed.

Lemma nilzero_digits (d : Decimal.uint) :
  NilZero.string_of_uint d <> EmptyString /\
  all_chars digit (NilZero.string_of_uint d) = true /\
  int_of_digits_from 0 (NilZero.string_of_uint d) = Z.of_N (Pos.of_uint d).
Proof.
  destruct d; [repeat split; discriminate|..];
    (split; [discriminate|]; split;
     [exact (digits_of_uint _) | exact (digits_value_0 _)]).
Qed.

Lemma str_of_int_digits (n : Z) :
  (0 <= n)%Z ->
  str_of_int n <> EmptyString /\
  all_chars digit (str_of_int n) = true /\
  int_of_digits (str_of_int n) = n.
Proof.
  intros Hn. unfold str_of_int, int_of_digits.
  pose proof (DecimalZ.of_to n) as Hof.
  destruct n as [|p|p]; [| |lia].
  - repeat split. discriminate.
  - change (Z.to_int (Z.pos p)) with (Decimal.Pos (Pos.to_uint p)) in *.
    change (Z.of_int (Decimal.Pos (Pos.to_uint p)))
      with (Z.of_N (Pos.of_uint (Pos.to_uint p))) in Hof.
    cbn [NilZero.string_of_int].
    destruct (nilzero_digits (Pos.to_uint p)) as (H1 & H2 & H3).
    repeat split; [exact H1 | exact H2 | now rewrite H3].
Qed.

(** X7. Printing and parsing agree: the announcement that names the
    attachment [n] in decimal, followed by any text, is parsed back to
    [n]. *)
Theorem announcement_round_trip (n : Z) (rest : string) :
  (0 <= n)%Z ->
  Attachment.parse_comment_text (announcement_of n rest) = VInt n.
Proof.
  intros Hn. destruct (str_of_int_digits n Hn) as (Hne & Hdig & Hval).
  rewrite <- Hval at 2.
  apply (parse_announced _ (str_of_int n) rest).
  repeat split; assumption.
Qed.

Lemma announcement_round_trip_witness :
  Attachment.parse_comment_text
    ("Created an attachment (id=4711)" +++ nl +++ "stack trace") = VInt 4711.
Proof.
  exact (announcement_round_trip 4711 (nl +++ "stack trace") ltac:(lia)).
Defined.

(** ** The outcome of the reconciliation *)

Lemma scan_accepted reporter_name atts obsolete c :
  ~ unresolved atts obsolete c ->
  exists c' del,
    Issue.scan_comment reporter_name atts obsolete c = OK (c', del) /\
    (if del then [] else [c']) = reconciled_entry reporter_name c.
Proof.
  intros Hn. unfold Issue.scan_comment, reconciled_entry.
  destruct (Attachment.parse_comment_text (thetext c)) as [|b|n|s] eqn:Hp.
  - simpl. now exists c, false.
  - destruct (parse_result (thetext c)) as [Hf|(ds & rest & _ & Hv)];
      [|congruence].
    rewrite Hp in Hf. injection Hf as ->. simpl. now exists c, false.
  - simpl. destruct (Z.eqb_spec n 0) as [->|Hz]; simpl; [now exists c, false|].
    assert (Hr : dict_mem Z.eqb n atts || int_in n obsolete = true).
    { destruct (dict_mem Z.eqb n atts || int_in n obsolete) eqn:Hr;
        [reflexivity|].
      exfalso. apply Hn. unfold unresolved, resolves. rewrite Hp. simpl.
      split; [|exact Hr]. apply negb_true_iff. now apply Z.eqb_neq. }
    rewrite Hr.
    destruct (String.eqb (who c) reporter_name).
    + now exists c, true.
    + rewrite (strip_parsed _ _ Hp). eexists _, false. now split.
  - exfalso. unfold Attachment.parse_comment_text in Hp.
    destruct (re_match _ (thetext c)) as [[? [?|]]|]; discriminate.
Qed.

(** X8. The outcome of the reconciliation of lines 148-172.  When no
    comment of the stream is unresolved, the result is the stream with
    every announcement of the reporter removed, every announcement of
    someone else stripped of its first two lines and tagged, and every
    other comment as it was, in the original order.  Otherwise the
    exception is the one for the first unresolved comment, and it quotes
    the parsed id and the whole text of that comment; later comments do
    not matter. *)
Theorem reconcile_outcome
        (reporter_name : string) (atts : list (Z * Attachment.t))
        (obsolete : list Z) (l : list comment_fields) :
  (Forall (fun c => ~ unresolved atts obsolete c) l ->
   Issue.reconcile_comments reporter_name atts obsolete l =
   OK (flat_map (reconciled_entry reporter_name) l)) /\
  (forall pre c post,
      l = pre ++ c :: post ->
      Forall (fun x => ~ unresolved atts obsolete x) pre ->
      unresolved atts obsolete c ->
      Issue.reconcile_comments reporter_name atts obsolete l =
      Raise (Exception
               ("Match `" +++ str_of_val (Attachment.parse_comment_text (thetext c))
                +++ "' found in comment `" +++ thetext c +++
                "', but attachment does not exist!"))).
Proof.
  split.
  - intros Hall. rewrite reconcile_comments_one_pass.
    induction Hall as [|c l Hc _ IH]; [reflexivity|].
    simpl.
    destruct (scan_accepted reporter_name atts obsolete c Hc)
      as (c' & del & -> & Hentry).
    rewrite IH, <- Hentry. now destruct del.
  - intros pre c post -> Hpre Hc.
    exact (reconcile_first_unresolved reporter_name atts obsolete pre c post Hpre Hc).
Qed.

Lemma reconcile_outcome_witness :
  Issue.reconcile_comments "alice" [] [4%Z]
    [demo_comment "bob" "Same here";
     demo_comment "alice" ("Created an attachment (id=4)" +++ nl +++ "log");
     demo_comment "bob" "Thanks"] =
  OK [demo_comment "bob" "Same here"; demo_comment "bob" "Thanks"].
Proof.
  refine (proj1 (reconcile_outcome "alice" [] [4%Z] _) _).
  repeat constructor; intros [Ht Hr]; vm_compute in Ht, Hr; discriminate.
Defined.

(** X9. An announcement of the reporter with an id other than 0 that is
    in the registry or obsolete is marked for deletion, and the
    reconciled stream is the one of the comments around it. *)
Theorem reporter_announcement_is_dropped
        (reporter_name : string) (atts : list (Z * Attachment.t))
        (obsolete : list Z) (c : comment_fields) (n : Z) :
  Attachment.parse_comment_text (thetext c) = VInt n ->
  n <> 0%Z ->
  who c = reporter_name ->
  resolves atts obsolete n = true ->
  Issue.scan_comment reporter_name atts obsolete c = OK (c, true) /\
  forall pre post pre' post',
    Issue.reconcile_comments reporter_name atts obsolete pre = OK pre' ->
    Issue.reconcile_comments reporter_name atts obsolete post = OK post' ->
    Issue.reconcile_comments reporter_name atts obsolete (pre ++ c :: post) =
    OK (pre' ++ post').
Proof.
  intros Hp Hn Hwho Hres.
  destruct (announced_truthy _ _ Hp Hn) as [Ht Hi].
  assert (Hs : Issue.scan_comment reporter_name atts obsolete c = OK (c, true)).
  { unfold Issue.scan_comment. rewrite Ht, Hi, Hwho, String.eqb_refl.
    unfold resolves in Hres. now rewrite Hres. }
  split; [exact Hs|].
  intros pre post pre' post' Hpre Hpost.
  rewrite reconcile_comments_one_pass in Hpre, Hpost.
  exact (reconciled_insert _ _ _ _ _ _ _ _ _ _ Hpre Hpost Hs).
Qed.

Lemma reporter_announcement_is_dropped_witness :
  Issue.scan_comment "alice" [] [7%Z]
    (demo_comment "alice" "Created an attachment (id=7)") =
  OK (demo_comment "alice" "Created an attachment (id=7)", true).
Proof.
  refine (proj1 (reporter_announcement_is_dropped "alice" [] [7%Z]
            (demo_comment "alice" "Created an attachment (id=7)") 7 _ _ _ _)).
  - reflexivity.
  - discriminate.
  - reflexivity.
  - reflexivity.
Defined.

(** X10. A record without comments cannot be described: once the dates
    are formatted, [create_description] raises [IndexError] at line 124,
    before any attachment is transferred. *)
Theorem no_comment_raises_index_error
        (E : Env) (fields : Fields) (log : list request) (d1 : string) :
  long_desc fields = [] ->
  format_datetime E (creation_ts fields) (datetime_format_string (conf E)) = Some d1 ->
  (truthy_str (resolution fields) = true ->
   exists d2, format_datetime E (delta_ts fields)
                              (datetime_format_string (conf E)) = Some d2) ->
  Issue.create_description E fields log = (Raise IndexError, log).
Proof.
  intros Hld Hd1 Hd2.
  unfold Issue.create_description, bind, format_dt, lift, ret.
  rewrite Hd1, Hld.
  destruct (truthy_str (resolution fields)).
  - destruct (Hd2 eq_refl) as [d2 ->]. reflexivity.
  - reflexivity.
Qed.

Lemma no_comment_raises_index_error_witness :
  Issue.create_description (demo_env false)
    (demo_fields "NEW" [] [demo_attachment 3 "log.txt" false]) [] =
  (Raise IndexError, []).
Proof.
  refine (no_comment_raises_index_error (demo_env false)
            (demo_fields "NEW" [] [demo_attachment 3 "log.txt" false]) []
            "2019-03-01 10:00:00" eq_refl eq_refl _).
  intros H. discriminate H.
Defined.

(** ** The comments of a thread *)

Lemma nonempty_append_r (a b : string) :
  nonempty b = true -> nonempty (a +++ b) = true.
Proof. intros H. destruct a; [exact H | reflexivity]. Qed.

Lemma needs_quoting_nonempty (s : string) :
  nonempty s = true -> nonempty (needs_quoting s) = true.
Proof.
  intros H. unfold needs_quoting.
  match goal with |- nonempty (if ?b then _ else _) = _ => destruct b end;
    [reflexivity | exact H].
Qed.

Lemma comment_init_log E c atts log r log' :
  Comment.__init__ E c atts log = (r, log') ->
  log' = log /\
  forall x, r = OK x ->
    exists prefix, Comment.body x = prefix +++ needs_quoting (thetext c) /\
                   Comment.issue_id x = None.
Proof.
  unfold Comment.__init__, validate_user, bind, lookup, parse_isoformat, ret, raise.
  destruct (dict_mem String.eqb (who c) (bugzilla_users (conf E)));
    [|intros [= <- <-]; split; [reflexivity | discriminate]].
  destruct (dict_get String.eqb (who c) (bugzilla_users (conf E))) as [mapped|];
    [|intros [= <- <-]; split; [reflexivity | discriminate]].
  destruct (dict_get String.eqb mapped (gitlab_users (conf E))) as [user|];
    [|intros [= <- <-]; split; [reflexivity | discriminate]].
  destruct (dateparser_isoformat E (bug_when c)) as [created|];
    [|intros [= <- <-]; split; [reflexivity | discriminate]].
  destruct (c_attachid c) as [n|].
  - destruct (n =? 0)%Z; simpl.
    + intros [= <- <-]. split; [reflexivity|]. intros x [= <-]. simpl. eauto.
    + destruct (dict_get Z.eqb n atts) as [a|];
        [|intros [= <- <-]; split; [reflexivity | discriminate]].
      intros [= <- <-]. split; [reflexivity|]. intros x [= <-]. simpl. eauto.
  - intros [= <- <-]. split; [reflexivity|]. intros x [= <-]. simpl. eauto.
Qed.

(** X11. Building the comments of a thread issues no request.  When it
    succeeds there is one comment for each entry of the record with a
    non-empty text, in order; each has a non-empty body, so that the
    body check of [Comment.validate] cannot fail for it, and its issue
    id is still unset. *)
Theorem loaded_comments_have_bodies
        (E : Env) (atts : list (Z * Attachment.t)) (l : list comment_fields) :
  forall log r log',
    IssueThread.load_comments E atts l log = (r, log') ->
    log' = log /\
    forall cs, r = OK cs ->
      List.length cs = List.length (with_text l) /\
      Forall2 (fun c x =>
                 exists prefix,
                   Comment.body x = prefix +++ needs_quoting (thetext c))
              (with_text l) cs /\
      Forall (fun x => Comment.body x <> EmptyString /\
                       Comment.issue_id x = None) cs.
Proof.
  induction l as [|c l IH]; intros log r log'; simpl.
  - unfold ret. intros [= <- <-]. split; [reflexivity|].
    intros cs [= <-]. repeat split; constructor.
  - destruct (nonempty (thetext c)) eqn:Hne; [|apply IH].
    unfold bind.
    destruct (Comment.__init__ E c atts log) as [[x|e] l1] eqn:Hi;
      apply comment_init_log in Hi as [-> Hx].
    2:{ intros [= <- <-]. split; [reflexivity | discriminate]. }
    destruct (Hx x eq_refl) as (prefix & Hbody & Hid).
    destruct (IssueThread.load_comments E atts l log) as [[cs|e] l2] eqn:Hl;
      apply IH in Hl as [-> Hcs].
    2:{ intros [= <- <-]. split; [reflexivity | discriminate]. }
    unfold ret. intros [= <- <-]. split; [reflexivity|].
    intros cs' [= <-]. destruct (Hcs cs eq_refl) as (Hlen & Hall2 & Hall).
    simpl. repeat split.
    + now rewrite Hlen.
    + constructor; [now exists prefix | assumption].
    + constructor; [|assumption]. split; [|assumption].
      intros Hempty.
      pose proof (nonempty_append_r prefix _ (needs_quoting_nonempty _ Hne)) as H.
      rewrite <- Hbody, Hempty in H. discriminate.
Qed.

Lemma loaded_comments_have_bodies_witness :
  exists cs,
    IssueThread.load_comments (demo_env false) []
      [demo_comment "bob" EmptyString; demo_comment "bob" "a > b"] [] = (OK cs, []) /\
    List.length cs = 1%nat.
Proof.
  eexists. split; [reflexivity|].
  exact (proj1 (proj2 (loaded_comments_have_bodies (demo_env false) []
            [demo_comment "bob" EmptyString; demo_comment "bob" "a > b"]
            [] _ _ eq_refl) _ eq_refl)).
Defined.

(** ** More on the attachment registry *)

Lemma register_same_tracking E st1 st2 a log :
  isobsolete a = false ->
  Issue.reg_attachments st1 = Issue.reg_attachments st2 ->
  Issue.attachment_files st1 = Issue.attachment_files st2 ->
  match Issue.register E st1 a log, Issue.register E st2 a log with
  | (OK s1, l1), (OK s2, l2) =>
      l1 = l2 /\
      Issue.reg_attachments s1 = Issue.reg_attachments s2 /\
      Issue.attachment_files s1 = Issue.attachment_files s2
  | (Raise e1, l1), (Raise e2, l2) => e1 = e2 /\ l1 = l2
  | _, _ => False
  end.
Proof.
  intros Hobs Hreg Hfiles. unfold Issue.register. rewrite Hobs. simpl.
  rewrite Hreg, Hfiles.
  destruct (Issue.dedup_filename (filename a) (Issue.attachment_files st2))
    as [fname files].
  unfold bind.
  destruct (Attachment.__init__ E (attachid a) fname log) as [[att|e] l1].
  - unfold ret. simpl. repeat split.
  - now split.
Qed.

Lemma build_registry_skips_obsolete E l :
  forall st1 st2 log,
    Issue.reg_attachments st1 = Issue.reg_attachments st2 ->
    Issue.attachment_files st1 = Issue.attachment_files st2 ->
    match Issue.build_registry E st1 l log,
          Issue.build_registry E st2 (active_part l) log with
    | (OK s1, l1), (OK s2, l2) =>
        l1 = l2 /\
        Issue.reg_attachments s1 = Issue.reg_attachments s2 /\
        Issue.attachment_files s1 = Issue.attachment_files s2
    | (Raise e1, l1), (Raise e2, l2) => e1 = e2 /\ l1 = l2
    | _, _ => False
    end.
Proof.
  induction l as [|a l IH]; intros st1 st2 log Hreg Hfiles.
  - simpl. unfold ret. repeat split; assumption.
  - change (Issue.build_registry E st1 (a :: l) log)
      with (bind (Issue.register E st1 a)
                 (fun st' => Issue.build_registry E st' l) log).
    unfold active_part. cbn [filter]. fold (active_part l).
    destruct (isobsolete a) eqn:Hobs; cbn [negb].
    + unfold bind, Issue.register. rewrite Hobs. cbn [negb]. unfold ret.
      apply IH; assumption.
    + change (Issue.build_registry E st2 (a :: active_part l) log)
        with (bind (Issue.register E st2 a)
                   (fun st' => Issue.build_registry E st' (active_part l)) log).
      unfold bind.
      pose proof (register_same_tracking E st1 st2 a log Hobs Hreg Hfiles) as Hstep.
      destruct (Issue.register E st1 a log) as [[s1|e1] l1],
               (Issue.register E st2 a log) as [[s2|e2] l2];
        try contradiction.
      * destruct Hstep as (-> & Hr & Hf). apply IH; assumption.
      * exact Hstep.
Qed.

(** X12. Obsolete attachments cost nothing and change nothing among the
    active ones: the registry loop over a record and the loop over its
    attachments that are not obsolete issue the same requests, raise the
    same exception if any, and otherwise build the same registry with
    the same names. *)
Theorem obsolete_attachments_are_not_transferred
        (E : Env) (l : list attachment_fields) (log : list request) :
  match Issue.build_registry E Issue.empty_registry l log,
        Issue.build_registry E Issue.empty_registry (active_part l) log with
  | (OK s1, l1), (OK s2, l2) =>
      l1 = l2 /\
      Issue.reg_attachments s1 = Issue.reg_attachments s2 /\
      Issue.attachment_files s1 = Issue.attachment_files s2
  | (Raise e1, l1), (Raise e2, l2) => e1 = e2 /\ l1 = l2
  | _, _ => False
  end.
Proof.
  apply (build_registry_skips_obsolete E l Issue.empty_registry
                                       Issue.empty_registry log);
    reflexivity.
Qed.

Lemma attachment_init_requests E n fname log r log' :
  Attachment.__init__ E n fname log = (r, log') ->
  forall att, r = OK att ->
    exists data,
      log' = log ++ [download_request E n; upload_request E fname data] /\
      att = {| Attachment.id := n; Attachment.filename := fname;
               Attachment.headers := default_headers (conf E);
               Attachment.markdown := Attachment.markdown att |}.
Proof.
  unfold Attachment.__init__, Attachment.__upload_attachment, bind.
  fold (download_request E n).
  destruct (_perform_request E (download_request E n) log) as [[resp|e] l1] eqn:H1;
    apply perform_request_log in H1; subst l1; [|intros [= <- _]; discriminate].
  fold (upload_request E fname (content resp)).
  destruct (_perform_request E (upload_request E fname (content resp))
                             (log ++ [download_request E n]))
    as [[resp2|e] l2] eqn:H2;
    apply perform_request_log in H2; subst l2; [|intros [= <- _]; discriminate].
  rewrite <- app_assoc. simpl.
  destruct (dry_run (conf E)); unfold ret, lookup, raise.
  - intros [= <- <-] att [= <-]. now exists (content resp).
  - destruct (json_markdown resp2) as [md|]; [|intros [= <- _]; discriminate].
    intros [= <- <-] att [= <-]. now exists (content resp).
Qed.

(** X13. The transfers happen eagerly and in source order: a registry
    loop that completes has issued exactly two requests per attachment
    that is not obsolete, and its download requests are those of the
    ids of these attachments, in the order of the record. *)
Theorem attachments_are_transferred_in_order (E : Env) (l : list attachment_fields) :
  forall st log st' log',
    Issue.build_registry E st l log = (OK st', log') ->
    exists evs,
      log' = log ++ evs /\
      filter is_get evs = map (download_request E) (active_ids l) /\
      List.length evs = (2 * List.length (active_ids l))%nat.
Proof.
  induction l as [|a l IH]; intros st log st' log'; simpl.
  - unfold ret. intros [= <- <-]. exists []. now rewrite app_nil_r.
  - unfold bind.
    destruct (Issue.register E st a log) as [[s1|e] l1] eqn:Hr; [|discriminate].
    intros Hb. apply IH in Hb as (evs2 & -> & Hget & Hlen).
    unfold Issue.register, active_ids in *. simpl.
    destruct (isobsolete a); simpl in *.
    + unfold ret in Hr. injection Hr as <- <-. now exists evs2.
    + destruct (Issue.dedup_filename (filename a) (Issue.attachment_files st))
        as [fname files].
      unfold bind in Hr.
      destruct (Attachment.__init__ E (attachid a) fname log) as [[att|e] l0] eqn:Hi;
        [|discriminate].
      unfold ret in Hr. injection Hr as <- <-.
      destruct (attachment_init_requests E _ _ _ _ _ Hi att eq_refl)
        as (data & -> & _).
      exists ([download_request E (attachid a); upload_request E fname data] ++ evs2).
      rewrite app_assoc. split; [reflexivity|].
      rewrite filter_app, length_app, Hget, Hlen. simpl. split; [reflexivity | lia].
Qed.

Lemma attachments_are_transferred_in_order_witness :
  exists st' evs,
    Issue.build_registry (demo_env false) Issue.empty_registry
      [demo_attachment 3 "log.txt" false; demo_attachment 4 "old.txt" true;
       demo_attachment 5 "core" false] [] = (OK st', evs) /\
    filter is_get evs =
    [download_request (demo_env false) 3; download_request (demo_env false) 5].
Proof.
  destruct (attachments_are_transferred_in_order (demo_env false)
              [demo_attachment 3 "log.txt" false; demo_attachment 4 "old.txt" true;
               demo_attachment 5 "core" false]
              Issue.empty_registry [] _ _ eq_refl) as (evs & Hlog & Hget & _).
  eexists _, evs. split; [|exact Hget].
  simpl in Hlog. rewrite <- Hlog. reflexivity.
Defined.

Lemma build_registry_keys E l :
  forall st log st' log',
    NoDup (active_ids l) ->
    (forall k, In k (active_ids l) -> ~ In k (dict_keys (Issue.reg_attachments st))) ->
    Issue.build_registry E st l log = (OK st', log') ->
    dict_keys (Issue.reg_attachments st') =
    dict_keys (Issue.reg_attachments st) ++ active_ids l.
Proof.
  induction l as [|a l IH]; intros st log st' log' Hnd Hfresh; simpl.
  - unfold ret. intros [= <- _]. unfold active_ids. simpl. now rewrite app_nil_r.
  - unfold bind.
    destruct (Issue.register E st a log) as [[s1|e] l1] eqn:Hr; [|discriminate].
    intros Hb. apply register_inv in Hr.
    unfold active_ids in *. simpl in *.
    destruct (isobsolete a); simpl in *.
    + destruct Hr as (Hreg & _ & _). rewrite <- Hreg.
      apply (IH s1 l1 st' log'); [assumption | now rewrite Hreg | assumption].
    + destruct Hr as (att & _ & _ & Hreg & _ & _).
      inversion Hnd as [|? ? Hnotin Hnd']; subst.
      rewrite (IH s1 l1 st' log' Hnd'); [| |assumption].
      * rewrite Hreg, dict_set_fresh by (apply Hfresh; now left).
        unfold dict_keys. rewrite map_app. simpl. now rewrite <- app_assoc.
      * intros k Hk. rewrite Hreg, dict_keys_set_In.
        intros [->|Hin]; [contradiction|].
        apply (Hfresh k); [now right | assumption].
Qed.

Lemma active_ids_NoDup (l : list attachment_fields) :
  NoDup (map attachid l) -> NoDup (active_ids l).
Proof.
  unfold active_ids. induction l as [|a l IH]; simpl; [constructor|].
  intros Hnd. inversion Hnd as [|? ? Hnotin Hnd']; subst.
  destruct (isobsolete a); simpl; [now apply IH|].
  constructor; [|now apply IH].
  intros Hin. apply Hnotin. apply in_map_iff in Hin as (b & Hb & Hin).
  apply filter_In in Hin as [Hin _]. rewrite <- Hb. now apply in_map.
Qed.

(** X14. With ids unique in the record, the keys of the registry are the
    ids of the attachments that are not obsolete, in the order of the
    record, and the obsolete list holds the ids of the obsolete ones, in
    the order of the record: the Attachments row of the description
    lists the tokens in source order. *)
Theorem registry_keeps_source_order
        (E : Env) (l : list attachment_fields) (log : list request)
        (st : Issue.registry) (log' : list request) :
  NoDup (map attachid l) ->
  Issue.build_registry E Issue.empty_registry l log = (OK st, log') ->
  dict_keys (Issue.reg_attachments st) = active_ids l /\
  Issue.obsolete_attachments st = obsolete_ids l.
Proof.
  intros Hnd Hb. split.
  - exact (build_registry_keys E l Issue.empty_registry _ _ _
                               (active_ids_NoDup l Hnd) (fun k _ H => H) Hb).
  - apply build_registry_inv in Hb as (_ & -> & _). reflexivity.
Qed.

Lemma registry_keeps_source_order_witness :
  exists st log',
    Issue.build_registry (demo_env true) Issue.empty_registry
      [demo_attachment 9 "b.txt" false; demo_attachment 4 "old" true;
       demo_attachment 2 "a.txt" false] [] = (OK st, log') /\
    dict_keys (Issue.reg_attachments st) = [9%Z; 2%Z] /\
    Issue.obsolete_attachments st = [4%Z].
Proof.
  eexists _, _. split; [reflexivity|].
  refine (registry_keeps_source_order (demo_env true)
            [demo_attachment 9 "b.txt" false; demo_attachment 4 "old" true;
             demo_attachment 2 "a.txt" false] [] _ _ _ eq_refl).
  simpl. repeat constructor; simpl; intuition discriminate.
Defined.

(** X15. Outside dry runs the token of an attachment is the markdown
    that the destination returns for the upload; an answer without
    markdown raises [KeyError] after both requests have been sent, and a
    failed upload raises after the download. *)
Theorem live_attachment_token
        (E : Env) (n : Z) (fname : string) (log : list request)
        (resp : response) :
  dry_run (conf E) = false ->
  backend E log (download_request E n) = Some resp ->
  let upload := upload_request E fname (content resp) in
  let sent := log ++ [download_request E n; upload] in
  (forall resp2 md,
      backend E (log ++ [download_request E n]) upload = Some resp2 ->
      json_markdown resp2 = Some md ->
      Attachment.__init__ E n fname log =
      (OK {| Attachment.id := n; Attachment.filename := fname;
             Attachment.headers := default_headers (conf E);
             Attachment.markdown := md |}, sent)) /\
  (forall resp2,
      backend E (log ++ [download_request E n]) upload = Some resp2 ->
      json_markdown resp2 = None ->
      Attachment.__init__ E n fname log = (Raise (KeyError "markdown"), sent)) /\
  (backend E (log ++ [download_request E n]) upload = None ->
   Attachment.__init__ E n fname log = (Raise (BackendError (req_url upload)), sent)).
Proof.
  intros Hdry Hresp upload sent.
  assert (Hlive : network_io upload = true).
  { unfold network_io, upload, upload_request. simpl. now rewrite Hdry. }
  assert (Hfirst : _perform_request E (download_request E n) log =
                   (OK resp, log ++ [download_request E n])).
  { unfold _perform_request. now rewrite Hresp. }
  unfold Attachment.__init__, Attachment.__upload_attachment, bind.
  fold (download_request E n). rewrite Hfirst.
  fold (upload_request E fname (content resp)). fold upload.
  unfold _perform_request. rewrite Hlive, Hdry.
  unfold sent. rewrite <- app_assoc. simpl.
  repeat split.
  - intros resp2 md -> ->. reflexivity.
  - intros resp2 -> ->. reflexivity.
  - intros ->. reflexivity.
Qed.

Lemma live_attachment_token_witness :
  Attachment.__init__ (demo_env false) 7 "a.png" [] =
  (OK {| Attachment.id := 7; Attachment.filename := "a.png";
         Attachment.headers := [("private-token", VStr "secret")];
         Attachment.markdown := "![file](/uploads/1/file)" |},
   [download_request (demo_env false) 7;
    upload_request (demo_env false) "a.png" "bytes"]).
Proof.
  exact (proj1 (live_attachment_token (demo_env false) 7 "a.png" []
                  demo_response eq_refl eq_refl)
               demo_response _ eq_refl eq_refl).
Defined.

Lemma dedup_filled (k : nat) (f : string) :
  Issue.dedup_filename f [filled k f] = (filled (S k) f, [filled (S k) f]).
Proof.
  unfold Issue.dedup_filename. simpl filter.
  rewrite contains_filled. simpl. now rewrite String.eqb_refl.
Qed.

Lemma filled_names_NoDup (f : string) (n : nat) :
  forall a, NoDup (map (fun i => filled i f) (seq a n)).
Proof.
  induction n as [|n IH]; intros a; simpl; constructor; [|apply IH].
  intros Hin. apply in_map_iff in Hin as (i & Heq & Hi).
  apply in_seq in Hi. apply (f_equal String.length) in Heq.
  rewrite !length_filled in Heq. lia.
Qed.

Lemma same_name_chain_from E (f : string) (l : list attachment_fields) :
  forall k st log st' log',
    Forall (fun a => isobsolete a = false /\ filename a = f) l ->
    NoDup (map attachid l) ->
    (forall a, In a l -> ~ In (attachid a) (dict_keys (Issue.reg_attachments st))) ->
    Issue.attachment_files st = [filled k f] ->
    Issue.build_registry E st l log = (OK st', log') ->
    registered_names st' =
    registered_names st ++ map (fun i => filled i f) (seq (S k) (List.length l)).
Proof.
  induction l as [|a l IH]; intros k st log st' log' Hall Hnd Hfresh Hfiles; simpl.
  - unfold ret. intros [= <- _]. now rewrite app_nil_r.
  - unfold bind.
    destruct (Issue.register E st a log) as [[s1|e] l1] eqn:Hr; [|discriminate].
    intros Hb. apply register_inv in Hr.
    inversion Hall as [|? ? [Hobs Hname] Hall']; subst.
    inversion Hnd as [|? ? Hnotin Hnd']; subst.
    rewrite Hobs, Hfiles, dedup_filled in Hr.
    destruct Hr as (att & _ & Hatt & Hreg & Hfiles1 & _). simpl in Hatt, Hfiles1.
    rewrite dict_set_fresh in Hreg by (apply Hfresh; now left).
    rewrite (IH (S k) s1 l1 st' log' Hall' Hnd'); [| |assumption|assumption].
    + unfold registered_names. rewrite Hreg, map_app. simpl.
      rewrite Hatt, <- app_assoc. reflexivity.
    + intros b Hb' Hin. rewrite Hreg in Hin. unfold dict_keys in Hin.
      rewrite map_app, in_app_iff in Hin. simpl in Hin.
      destruct Hin as [Hin|[Heq|[]]].
      * apply (Hfresh b); [now right | assumption].
      * apply Hnotin. rewrite Heq. now apply in_map.
Qed.

(** X16. Attachments that all carry the same filename get the names f,
    xf, xxf, ... in source order: with unique ids and none of them
    obsolete, the i-th is registered with i filler characters in front,
    and no two registered names are equal. *)
Theorem same_name_chain
        (E : Env) (f : string) (l : list attachment_fields)
        (log : list request) (st : Issue.registry) (log' : list request) :
  Forall (fun a => isobsolete a = false /\ filename a = f) l ->
  NoDup (map attachid l) ->
  Issue.build_registry E Issue.empty_registry l log = (OK st, log') ->
  registered_names st = map (fun i => filled i f) (seq 0 (List.length l)) /\
  NoDup (registered_names st).
Proof.
  intros Hall Hnd Hb.
  assert (Hnames : registered_names st =
                   map (fun i => filled i f) (seq 0 (List.length l))).
  { destruct l as [|a l].
    - simpl in Hb. unfold ret in Hb. now injection Hb as <- _.
    - simpl in Hb. unfold bind in Hb.
      destruct (Issue.register E Issue.empty_registry a log)
        as [[s1|e] l1] eqn:Hr; [|discriminate].
      apply register_inv in Hr.
      inversion Hall as [|? ? [Hobs Hname] Hall']; subst.
      inversion Hnd as [|? ? Hnotin Hnd']; subst.
      rewrite Hobs in Hr.
      destruct Hr as (att & _ & Hatt & Hreg & Hfiles1 & _).
      simpl in Hatt, Hreg, Hfiles1.
      rewrite (same_name_chain_from E (filename a) l 0 s1 l1 st log' Hall' Hnd');
        [| |exact Hfiles1|exact Hb].
      + unfold registered_names. rewrite Hreg. simpl. now rewrite Hatt.
      + intros b Hb' Hin. rewrite Hreg in Hin. simpl in Hin.
        destruct Hin as [Heq|[]]. apply Hnotin. rewrite Heq. now apply in_map. }
  split; [exact Hnames|]. rewrite Hnames. apply filled_names_NoDup.
Qed.

Lemma same_name_chain_witness :
  exists st log',
    Issue.build_registry (demo_env true) Issue.empty_registry
      [demo_attachment 1 "a.png" false; demo_attachment 2 "a.png" false;
       demo_attachment 3 "a.png" false; demo_attachment 4 "a.png" false] [] =
    (OK st, log') /\
    registered_names st = ["a.png"; "xa.png"; "xxa.png"; "xxxa.png"].
Proof.
  eexists _, _. split; [reflexivity|].
  refine (proj1 (same_name_chain (demo_env true) "a.png"
            [demo_attachment 1 "a.png" false; demo_attachment 2 "a.png" false;
             demo_attachment 3 "a.png" false; demo_attachment 4 "a.png" false]
            [] _ _ _ _ eq_refl)).
  - repeat constructor.
  - simpl. repeat constructor; simpl; intuition discriminate.
Defined.

(** ** More on saving *)

Lemma toggle_admin_requests E hdrs user state log r log' :
  Issue.toggle_admin E hdrs user state log = (r, log') ->
  log' = log \/ exists token, log' = log ++ [toggle_request E token user state].
Proof.
  unfold Issue.toggle_admin, bind, lookup, ret, raise.
  destruct (dict_get Z.eqb user (gitlab_user_admins (conf E))) as [is_admin|];
    [|intros [= _ <-]; now left].
  destruct is_admin; simpl; [intros [= _ <-]; now left|].
  destruct (dict_get String.eqb "private-token" hdrs) as [token|];
    [|intros [= _ <-]; now left].
  unfold set_user_isadmin. fold (toggle_request E token user state).
  destruct (_perform_request E (toggle_request E token user state) log)
    as [[resp|e] l1] eqn:Hp;
    apply perform_request_log in Hp; subst l1;
    intros [= _ <-]; right; now exists token.
Qed.

(** The requests of a save, whatever property [P] they are known to
    have. *)
Section SaveRequests.
Variable E : Env.
Variable P : request -> Prop.
Hypothesis P_toggle : forall token user state, P (toggle_request E token user state).
Hypothesis P_issue : forall self, P (Issue.post_request E self).
Hypothesis P_note : forall c n, P (Comment.post_request E c n).
Hypothesis P_close : forall self n, P (Issue.close_request E self n).

Lemma toggle_admin_all hdrs user state log r log' :
  Issue.toggle_admin E hdrs user state log = (r, log') ->
  exists evs, log' = log ++ evs /\ Forall P evs.
Proof.
  intros H. apply toggle_admin_requests in H as [->|[token ->]].
  - exists []. now rewrite app_nil_r.
  - eexists. split; [reflexivity|]. repeat constructor. apply P_toggle.
Qed.

Lemma issue_save_all self log r log' :
  Issue.save E self log = (r, log') ->
  exists evs, log' = log ++ evs /\ Forall P evs.
Proof.
  unfold Issue.save, bind.
  destruct (Issue.validate self log) as [[b|e] l0] eqn:Hv;
    apply issue_validate_log in Hv as [-> _].
  2:{ intros [= _ <-]. exists []. now rewrite app_nil_r. }
  destruct (Issue.toggle_admin E (Issue.headers self) (Issue.sudo self) "true" log)
    as [[[]|e] l1] eqn:H1; apply toggle_admin_all in H1 as (evs1 & -> & Hp1).
  2:{ intros [= _ <-]. now exists evs1. }
  destruct (_perform_request E (Issue.post_request E self) (log ++ evs1))
    as [[resp|e] l2] eqn:H2; apply perform_request_log in H2; subst l2.
  2:{ intros [= _ <-]. exists (evs1 ++ [Issue.post_request E self]).
      rewrite app_assoc. split; [reflexivity|].
      apply Forall_app. split; [assumption|]. repeat constructor. apply P_issue. }
  match goal with
  | |- match Issue.toggle_admin E ?h ?u ?s ?l with _ => _ end = _ -> _ =>
      destruct (Issue.toggle_admin E h u s l) as [[[]|e] l3] eqn:H3;
      apply toggle_admin_all in H3 as (evs3 & -> & Hp3)
  end.
  - intros Hres.
    assert (Hlog : log' = ((log ++ evs1) ++ [Issue.post_request E self]) ++ evs3).
    { destruct (dry_run (conf E)); unfold ret, lookup, raise in Hres.
      - now injection Hres as _ <-.
      - destruct (json_iid resp); [destruct (json_id resp)|];
          now injection Hres as _ <-. }
    subst log'. exists (evs1 ++ [Issue.post_request E self] ++ evs3).
    rewrite !app_assoc. split; [reflexivity|].
    rewrite <- app_assoc. apply Forall_app. split; [assumption|].
    constructor; [apply P_issue | assumption].
  - intros [= _ <-]. exists (evs1 ++ [Issue.post_request E self] ++ evs3).
    rewrite !app_assoc. split; [reflexivity|].
    rewrite <- app_assoc. apply Forall_app. split; [assumption|].
    constructor; [apply P_issue | assumption].
Qed.

Lemma comment_save_all self log r log' :
  Comment.save E self log = (r, log') ->
  exists evs, log' = log ++ evs /\ Forall P evs.
Proof.
  unfold Comment.save, bind.
  destruct (Comment.validate self log) as [[[]|e] l0] eqn:Hv;
    apply comment_validate_log in Hv; subst l0.
  2:{ intros [= _ <-]. exists []. now rewrite app_nil_r. }
  destruct (Issue.toggle_admin E (Comment.headers self) (Comment.sudo self) "true" log)
    as [[[]|e] l1] eqn:H1; apply toggle_admin_all in H1 as (evs1 & -> & Hp1).
  2:{ intros [= _ <-]. now exists evs1. }
  destruct (Comment.issue_id self) as [n|].
  2:{ unfold raise. intros [= _ <-]. now exists evs1. }
  destruct (_perform_request E (Comment.post_request E self n) (log ++ evs1))
    as [[resp|e] l2] eqn:H2; apply perform_request_log in H2; subst l2.
  2:{ intros [= _ <-]. exists (evs1 ++ [Comment.post_request E self n]).
      rewrite app_assoc. split; [reflexivity|].
      apply Forall_app. split; [assumption|]. repeat constructor. apply P_note. }
  match goal with
  | |- match Issue.toggle_admin E ?h ?u ?s ?l with _ => _ end = _ -> _ =>
      destruct (Issue.toggle_admin E h u s l) as [[[]|e] l3] eqn:H3;
      apply toggle_admin_all in H3 as (evs3 & -> & Hp3)
  end;
    unfold ret; intros [= _ <-];
    exists (evs1 ++ [Comment.post_request E self n] ++ evs3);
    rewrite !app_assoc; (split; [reflexivity|]);
    rewrite <- app_assoc; apply Forall_app; (split; [assumption|]);
    (constructor; [apply P_note | assumption]).
Qed.

Lemma save_comments_all issue_iid (l : list Comment.t) :
  forall log r log',
    IssueThread.save_comments E issue_iid l log = (r, log') ->
    exists evs, log' = log ++ evs /\ Forall P evs.
Proof.
  induction l as [|c l IH]; intros log r log'; simpl.
  - unfold ret. intros [= _ <-]. exists []. now rewrite app_nil_r.
  - unfold bind, getattr.
    destruct issue_iid as [n|].
    2:{ unfold raise. intros [= _ <-]. exists []. now rewrite app_nil_r. }
    unfold ret at 1.
    destruct (Comment.save E (Comment.set_issue_id n c) log) as [[c'|e] l1] eqn:Hc;
      apply comment_save_all in Hc as (evs1 & -> & Hp1).
    2:{ intros [= _ <-]. now exists evs1. }
    destruct (IssueThread.save_comments E (Some n) l (log ++ evs1))
      as [[cs|e] l2] eqn:Hl;
      apply IH in Hl as (evs2 & -> & Hp2);
      unfold ret; intros [= _ <-]; exists (evs1 ++ evs2);
      rewrite app_assoc; (split; [reflexivity|]);
      apply Forall_app; now split.
Qed.

Lemma thread_save_all self log r log' :
  IssueThread.save E self log = (r, log') ->
  exists evs, log' = log ++ evs /\ Forall P evs.
Proof.
  unfold IssueThread.save, bind.
  destruct (Issue.save E (IssueThread.issue self) log) as [[the_issue|e] l1] eqn:Hi;
    apply issue_save_all in Hi as (evs1 & -> & Hp1).
  2:{ intros [= _ <-]. now exists evs1. }
  destruct (IssueThread.save_comments E (Issue.iid the_issue)
                                      (IssueThread.comments self) (log ++ evs1))
    as [[cs|e] l2] eqn:Hc;
    apply save_comments_all in Hc as (evs2 & -> & Hp2).
  2:{ intros [= _ <-]. exists (evs1 ++ evs2). rewrite app_assoc.
      split; [reflexivity|]. apply Forall_app. now split. }
  destruct (String.eqb (Issue.status the_issue) "RESOLVED").
  - unfold Issue.close, bind.
    destruct (Issue.iid the_issue) as [n|].
    2:{ unfold raise. intros [= _ <-]. exists (evs1 ++ evs2). rewrite app_assoc.
        split; [reflexivity|]. apply Forall_app. now split. }
    destruct (_perform_request E (Issue.close_request E the_issue n)
                               ((log ++ evs1) ++ evs2))
      as [[resp|e] l3] eqn:Hp; apply perform_request_log in Hp; subst l3;
      unfold ret; intros [= _ <-];
      exists (evs1 ++ evs2 ++ [Issue.close_request E the_issue n]);
      rewrite !app_assoc; (split; [reflexivity|]);
      rewrite <- app_assoc; apply Forall_app; (split; [assumption|]);
      apply Forall_app; (split; [assumption|]);
      repeat constructor; apply P_close.
  - unfold ret. intros [= _ <-]. exists (evs1 ++ evs2). rewrite app_assoc.
    split; [reflexivity|]. apply Forall_app. now split.
Qed.
End SaveRequests.

(** X17. Every request of [IssueThread.save] is either one that
    switches admin rights, issued without a dry-run flag, or carries the
    dry-run flag of the configuration.  So in a dry run no issue,
    comment or close directive reaches the network, while the admin
    rights of a user who is no admin are switched for real. *)
Theorem dry_run_save_switches_rights_only
        (E : Env) (self : IssueThread.t) (log : list request)
        (r : result IssueThread.t) (log' : list request) :
  IssueThread.save E self log = (r, log') ->
  exists evs,
    log' = log ++ evs /\
    Forall (fun q => is_toggle_request E q /\ network_io q = true \/
                     req_dry_run q = Some (dry_run (conf E))) evs /\
    (dry_run (conf E) = true ->
     forall q, In q evs -> network_io q = true -> is_toggle_request E q).
Proof.
  intros Hsave.
  destruct (thread_save_all E
              (fun q => is_toggle_request E q /\ network_io q = true \/
                        req_dry_run q = Some (dry_run (conf E)))) with
      (self := self) (log := log) (r := r) (log' := log')
    as (evs & Hlog & Hall); try (intros; now right); try assumption.
  { intros token user state. left. split; [|reflexivity].
    now exists token, user, state. }
  exists evs. split; [exact Hlog|]. split; [exact Hall|].
  intros Hdry q Hin Hlive.
  rewrite Forall_forall in Hall. destruct (Hall q Hin) as [[Ht _]|Hflag];
    [exact Ht|].
  unfold network_io in Hlive. rewrite Hflag, Hdry in Hlive. discriminate.
Qed.

Lemma dry_run_save_switches_rights_only_witness :
  exists evs,
    snd (IssueThread.save (demo_env true) (demo_thread "RESOLVED") []) = [] ++ evs /\
    forall q, In q evs -> network_io q = true -> is_toggle_request (demo_env true) q.
Proof.
  destruct (dry_run_save_switches_rights_only (demo_env true)
              (demo_thread "RESOLVED") [] _ _ eq_refl)
    as (evs & Hlog & _ & Hdry).
  exists evs. split; [exact Hlog | exact (Hdry eq_refl)].
Defined.

(** X18. A successful [Issue.save] leaves the payload of the issue as
    it was.  In a dry run it gives the issue the ids 5 and 50 whatever
    the answer; otherwise the ids are those of an answer of the
    destination to the submission. *)
Theorem saved_issue_ids
        (E : Env) (self : Issue.t) (log : list request)
        (self' : Issue.t) (log' : list request) :
  Issue.save E self log = (OK self', log') ->
  Issue.data self' = Issue.data self /\
  (dry_run (conf E) = true ->
   Issue.id self' = Some 5%Z /\ Issue.iid self' = Some 50%Z) /\
  (dry_run (conf E) = false ->
   exists sent resp,
     backend E sent (Issue.post_request E self) = Some resp /\
     json_id resp = Issue.id self' /\ json_iid resp = Issue.iid self').
Proof.
  unfold Issue.save, bind.
  destruct (Issue.validate self log) as [[b|e] l0]; [|discriminate].
  destruct (Issue.toggle_admin E (Issue.headers self) (Issue.sudo self) "true" l0)
    as [[[]|e] l1]; [|discriminate].
  destruct (_perform_request E (Issue.post_request E self) l1)
    as [[resp|e] l2] eqn:Hp; [|discriminate].
  match goal with
  | |- match Issue.toggle_admin E ?h ?u ?s ?l with _ => _ end = _ -> _ =>
      destruct (Issue.toggle_admin E h u s l) as [[[]|e] l3]; [|discriminate]
  end.
  destruct (dry_run (conf E)) eqn:Hdry.
  - unfold ret. intros [= <- _]. repeat split; discriminate.
  - unfold lookup, ret, raise.
    destruct (json_iid resp) as [new_iid|] eqn:Hiid; [|discriminate].
    destruct (json_id resp) as [new_id|] eqn:Hid; [|discriminate].
    intros [= <- _]. split; [reflexivity|]. split; [discriminate|].
    intros _. exists l1, resp. split; [|now split].
    unfold _perform_request, network_io in Hp. simpl in Hp. rewrite Hdry in Hp.
    destruct (backend E l1 (Issue.post_request E self)); [|discriminate].
    now injection Hp as ->.
Qed.

Lemma saved_issue_ids_witness :
  exists self' log',
    Issue.save (demo_env true) (demo_issue "NEW") [] = (OK self', log') /\
    Issue.id self' = Some 5%Z /\ Issue.iid self' = Some 50%Z.
Proof.
  eexists _, _. split; [lazy; reflexivity|].
  exact (proj1 (proj2 (saved_issue_ids (demo_env true) (demo_issue "NEW") []
                         _ _ eq_refl)) eq_refl).
Defined.

(** X19. A rejected submission leaves the admin rights switched on: for
    a valid issue of a user who is no admin, when the destination
    grants the rights and then rejects the issue, [Issue.save] raises
    right after the submission, and the request that withdraws the
    rights is never issued. *)
Theorem rejected_issue_keeps_admin_rights
        (E : Env) (self : Issue.t) (log : list request)
        (token : pyval) (granted : response) :
  validated self ->
  dict_get Z.eqb (Issue.sudo self) (gitlab_user_admins (conf E)) = Some false ->
  dict_get String.eqb "private-token" (Issue.headers self) = Some token ->
  dry_run (conf E) = false ->
  let grant := toggle_request E token (Issue.sudo self) "true" in
  backend E log grant = Some granted ->
  backend E (log ++ [grant]) (Issue.post_request E self) = None ->
  Issue.save E self log =
  (Raise (BackendError (Issue.issues_url E)),
   log ++ [grant; Issue.post_request E self]).
Proof.
  intros (Ht & Hd & Hs) Hadmin Htoken Hdry grant Hgrant Hpost.
  assert (Hv : Issue.validate self log = (OK true, log)).
  { unfold Issue.validate.
    destruct (Issue.title self); [congruence|].
    destruct (Issue.description self); [congruence|].
    destruct (Issue.status self); [congruence | reflexivity]. }
  assert (H1 : Issue.toggle_admin E (Issue.headers self) (Issue.sudo self) "true" log
               = (OK tt, log ++ [grant])).
  { unfold Issue.toggle_admin, bind, lookup, ret.
    rewrite Hadmin. cbn [negb]. rewrite Htoken.
    unfold set_user_isadmin. fold (toggle_request E token (Issue.sudo self) "true").
    fold grant. unfold _perform_request.
    change (network_io grant) with true. cbv iota. now rewrite Hgrant. }
  assert (H2 : _perform_request E (Issue.post_request E self) (log ++ [grant])
               = (Raise (BackendError (Issue.issues_url E)),
                  (log ++ [grant]) ++ [Issue.post_request E self])).
  { unfold _perform_request, network_io. cbn [req_dry_run Issue.post_request].
    now rewrite Hdry, Hpost. }
  unfold Issue.save, bind. rewrite Hv, H1, H2.
  now rewrite <- app_assoc.
Qed.

Lemma rejected_issue_keeps_admin_rights_witness :
  Issue.save rejecting_env bob_issue [] =
  (Raise (BackendError "https://git.example/api/v4/projects/42/issues"),
   [toggle_request rejecting_env (VStr "secret") 2 "true";
    Issue.post_request rejecting_env bob_issue]).
Proof.
  refine (rejected_issue_keeps_admin_rights rejecting_env bob_issue []
            (VStr "secret") demo_response _ eq_refl eq_refl eq_refl eq_refl eq_refl).
  repeat split; discriminate.
Defined.

(** ** Tagged comments and the submitter row *)

(** X20. A comment tagged with an attachment id other than 0 can only
    be built when the id is a key of the registry: for a mapped author
    and a date that parses, the constructor raises [KeyError] for any
    other id, in particular for the id of an obsolete attachment, and
    otherwise puts the token of the attachment on a line of its own
    between the optional author line and the sanitized text. *)
Theorem tagged_comment_needs_registered_attachment
        (E : Env) (c : comment_fields) (atts : list (Z * Attachment.t))
        (log : list request) (mapped : string) (user : Z) (created : string)
        (n : Z) :
  dict_get String.eqb (who c) (bugzilla_users (conf E)) = Some mapped ->
  dict_get String.eqb mapped (gitlab_users (conf E)) = Some user ->
  dateparser_isoformat E (bug_when c) = Some created ->
  c_attachid c = Some n ->
  n <> 0%Z ->
  (dict_get Z.eqb n atts = None ->
   Comment.__init__ E c atts log = (Raise (KeyError (str_of_int n)), log)) /\
  (forall a, dict_get Z.eqb n atts = Some a ->
     exists x,
       Comment.__init__ E c atts log = (OK x, log) /\
       Comment.sudo x = user /\
       Comment.body x =
       (if String.eqb mapped (gitlab_misc_user (conf E))
        then "By " +++ who c +++ nl +++ nl else EmptyString) +++
       Attachment.markdown a +++ nl +++ needs_quoting (thetext c)).
Proof.
  intros Hm Hu Hd Htag Hn. apply Z.eqb_neq in Hn.
  unfold Comment.__init__, validate_user, dict_mem, bind, lookup,
    parse_isoformat, ret, raise.
  rewrite Hm, Hu, Hd, Htag, Hn. cbn [negb]. split.
  - intros ->. reflexivity.
  - intros a ->. eexists. split; [reflexivity|]. split; [reflexivity|].
    cbn [Comment.body Attachment.__str__]. now rewrite !append_assoc.
Qed.

Lemma tagged_comment_needs_registered_attachment_witness :
  Comment.__init__ (demo_env false)
    {| who := "bob"; bug_when := "2019-03-02"; thetext := "please ignore";
       c_attachid := Some 7%Z |} [] [] =
  (Raise (KeyError "7"), []).
Proof.
  refine (proj1 (tagged_comment_needs_registered_attachment (demo_env false)
            {| who := "bob"; bug_when := "2019-03-02"; thetext := "please ignore";
               c_attachid := Some 7%Z |} [] [] "bob.gl" 2 "2019-03-02" 7
            eq_refl eq_refl eq_refl eq_refl _) eq_refl).
  discriminate.
Defined.

Lemma rpartition_found_none (sep s : string) :
  rpartition_found sep s = None ->
  forall a c, s <> a +++ sep +++ c.
Proof.
  induction s as [|x s IH]; simpl.
  - destruct (strip_prefix sep EmptyString) eqn:Hp; [discriminate|].
    intros _ a c Heq. destruct a; simpl in Heq; [|discriminate].
    rewrite Heq, strip_prefix_append in Hp. discriminate.
  - destruct (rpartition_found sep s) as [[b after]|] eqn:Hr; [discriminate|].
    destruct (strip_prefix sep (String x s)) eqn:Hp; [discriminate|].
    intros _ a c Heq. destruct a as [|y a]; simpl in Heq.
    + rewrite Heq, strip_prefix_append in Hp. discriminate.
    + injection Heq as _ Heq. exact (IH eq_refl a c Heq).
Qed.

Lemma rpartition_found_last (sep s before after : string) :
  rpartition_found sep s = Some (before, after) ->
  s = before +++ sep +++ after /\
  forall a c, s = a +++ sep +++ c -> (String.length a <= String.length before)%nat.
Proof.
  revert before after. induction s as [|x s IH]; intros before after; simpl.
  - destruct (strip_prefix sep EmptyString) eqn:Hp; [|discriminate].
    intros [= <- <-]. apply strip_prefix_inv in Hp. split; [exact Hp|].
    intros a c Heq. destruct a; [simpl; lia | discriminate].
  - destruct (rpartition_found sep s) as [[b aft]|] eqn:Hr.
    + intros [= <- <-]. destruct (IH b aft eq_refl) as [Heq Hlast].
      split; [simpl; now rewrite <- Heq|].
      intros a c Ha. destruct a as [|y a]; simpl in *; [lia|].
      injection Ha as _ Ha. specialize (Hlast a c Ha). lia.
    + destruct (strip_prefix sep (String x s)) eqn:Hp; [|discriminate].
      intros [= <- <-]. apply strip_prefix_inv in Hp. split; [exact Hp|].
      intros a c Ha. destruct a as [|y a]; simpl in *; [lia|].
      injection Ha as _ Ha.
      exfalso. exact (rpartition_found_none sep s Hr a c Ha).
Qed.

Lemma take_run_consumed (p : ascii -> bool) (s : string) :
  take (String.length s - String.length (drop_run p s)) s = take_run p s.
Proof.
  rewrite <- (take_drop_run p s) at 1 3.
  apply take_consumed.
Qed.

Lemma submitter_group (s : string) :
  exists rest,
    re_match Issue.submitter_regex s = Some (rest, Some (take_run nonspace s)).
Proof.
  unfold re_match, Issue.submitter_regex.
  rewrite run_seq, run_grp, run_star.
  destruct (submitter_tail (drop_run nonspace s)
              (Some (take (String.length s - String.length (drop_run nonspace s)) s)))
    as [rest Hrest].
  exists rest. rewrite <- take_run_consumed. apply star_k_greedy. exact Hrest.
Qed.

(** X21. For a bug of the auto-reporter, the Reporter row quotes what
    follows the last occurrence of the words "Submitter was " in the
    extended description, up to the first white space; without these
    words there is no Reporter row.  No request is issued. *)
Theorem submitter_row
        (E : Env) (reporter_name ext : string) (log : list request) :
  reporter_name = bugzilla_auto_reporter (conf E) ->
  (forall before after,
      ext = before +++ "Submitter was " +++ after ->
      (forall a c, ext = a +++ "Submitter was " +++ c ->
                   (String.length a <= String.length before)%nat) ->
      Issue.reporter_row E reporter_name ext log =
      (OK (markdown_table_row E "Reporter" (Some (take_run nonspace after))), log)) /\
  ((forall a c, ext <> a +++ "Submitter was " +++ c) ->
   Issue.reporter_row E reporter_name ext log = (OK EmptyString, log)).
Proof.
  intros ->. unfold Issue.reporter_row, rpartition.
  rewrite String.eqb_refl. split.
  - intros before after Hext Hlast.
    destruct (rpartition_found "Submitter was " ext) as [[b aft]|] eqn:Hr.
    + apply rpartition_found_last in Hr as [Heq Hmax].
      assert (Hlen : String.length b = String.length before).
      { apply Nat.le_antisymm; [exact (Hlast b aft Heq) | exact (Hmax before after Hext)]. }
      assert (Haft : aft = after).
      { rewrite Hext in Heq. clear - Heq Hlen.
        revert b Heq Hlen. induction before as [|x before IH]; intros b Heq Hlen.
        - destruct b; [|discriminate]. simpl in Heq.
          now injection Heq as ->.
        - destruct b as [|y b]; [discriminate|]. simpl in Heq, Hlen.
          injection Heq as _ Heq. injection Hlen as Hlen.
          exact (IH b Heq Hlen). }
      subst aft. cbn [nonempty].
      destruct (submitter_group after) as [rest ->]. reflexivity.
    + exfalso. exact (rpartition_found_none _ _ Hr before after Hext).
  - intros Hno.
    destruct (rpartition_found "Submitter was " ext) as [[b aft]|] eqn:Hr;
      [|reflexivity].
    apply rpartition_found_last in Hr as [Heq _].
    exfalso. exact (Hno b aft Heq).
Qed.

Lemma submitter_row_witness :
  Issue.reporter_row (demo_env false) "auto@bugs.example"
    ("It crashes. Submitter was nobody. Submitter was joe@mail.example" +++ nl +++
     "sent by mail") [] =
  (OK (demo_row "Reporter" (Some "joe@mail.example")), []).
Proof.
  refine (proj1 (submitter_row (demo_env false) "auto@bugs.example"
            ("It crashes. Submitter was nobody. Submitter was joe@mail.example"
             +++ nl +++ "sent by mail") [] eq_refl)
            "It crashes. Submitter was nobody. "
            ("joe@mail.example" +++ nl +++ "sent by mail") eq_refl _).
  exact (proj2 (rpartition_found_last "Submitter was "
            ("It crashes. Submitter was nobody. Submitter was joe@mail.example"
             +++ nl +++ "sent by mail")
            "It crashes. Submitter was nobody. "
            ("joe@mail.example" +++ nl +++ "sent by mail") eq_refl)).
Defined.
